(** * Graph builders of graphnet: a shallow embedding and its properties

    Source: [src/graphnet/models/graph_builders.py].

    The three builders ([KNNGraphBuilder], [RadialGraphBuilder],
    [EuclideanGraphBuilder]) take a [torch_geometric.data.Data] object,
    compute an adjacency from the node features restricted to a column
    subset, store it in the object and return the object.

    Modelling choices:
    - a float tensor is a list (vector) or a list of rows (matrix) of real
      numbers: the arithmetic is the exact one, rounding is not modelled;
    - an integer index tensor of shape [2, E] is the list of its E columns,
      each a pair (source, target);
    - Python objects live in a store; [forward] receives and returns a
      reference, and the logger is an append-only list of records;
    - with [sigma = 0] the float code divides by zero and works with
      infinities and NaN, which exact arithmetic does not have: the
      statements about weights are made for [sigma <> 0]. *)

From Stdlib Require Import Reals Lra Lia.
From stdpp Require Import gmap strings list sorting.

(** ** Scalars and tensors *)

#[global] Instance Rlt_decision (a b : R) : Decision (a < b)%R := Rlt_dec a b.
#[global] Instance Rle_decision (a b : R) : Decision (a <= b)%R := Rle_dec a b.

(** A 2-dimensional float tensor of shape [(length rows, shape1)]. *)
Record Tensor2 := mkTensor2 { shape1 : nat; rows : list (list R) }.

Definition wf_tensor (t : Tensor2) : Prop :=
  Forall (fun r => length r = shape1 t) (rows t).

(** [tensor.sum()] over a vector. *)
Definition tsum (v : list R) : R := foldr Rplus 0%R v.

(** ** Exceptions, the store and the logger *)

Inductive exn :=
  | IndexError      (* an index of [x[:, columns]] is out of range *)
  | ReferenceError. (* a reference that the store does not hold *)

Inductive level := INFO | WARNING.

Definition loc := positive.

(** A batched [torch_geometric.data.Data] object: the attributes the
    builders read or write ([edge_index] and [edge_weight] are [None]
    until set), and a dictionary for every other attribute it may carry. *)
Record Data := mkData {
  x : Tensor2;
  batch : list Z;
  edge_index : option (list (nat * nat));
  edge_weight : option (list R);
  attrs : gmap string (list R)
}.

Definition set_edge_index (e : list (nat * nat)) (d : Data) : Data :=
  mkData (x d) (batch d) (Some e) (edge_weight d) (attrs d).

Definition set_edge_weight (w : list R) (d : Data) : Data :=
  mkData (x d) (batch d) (edge_index d) (Some w) (attrs d).

(** Number of nodes, and the shape invariant of a [Data] object: one batch
    id per node, every row of [x] of the declared width. *)
Definition num_nodes (d : Data) : nat := length (rows (x d)).

Definition wf_data (d : Data) : Prop :=
  wf_tensor (x d) /\ length (batch d) = num_nodes d.

(** What a logging call is handed: a string, or a tuple of strings. *)
Inductive message :=
  | Str (text : string)
  | Tuple (items : list string).

Record State := mkState {
  heap : gmap loc Data;
  logged : list (level * message)
}.

(** Computations that read and write the store, log, and may raise. *)
Definition M (A : Type) : Type := State -> (exn + A) * State.

#[global] Instance M_ret : MRet M := fun A a s => (inr a, s).
#[global] Instance M_bind : MBind M := fun A B f m s =>
  match m s with
  | (inl e, s') => (inl e, s')
  | (inr a, s') => f a s'
  end.

Definition raise {A} (e : exn) : M A := fun s => (inl e, s).

Definition lift {A} (r : exn + A) : M A := fun s => (r, s).

(** [data.attr]: dereference. *)
Definition read (l : loc) : M Data := fun s =>
  match heap s !! l with
  | Some d => (inr d, s)
  | None => (inl ReferenceError, s)
  end.

(** [data.attr = v]: update the object in place. *)
Definition modify (l : loc) (f : Data -> Data) : M unit := fun s =>
  match heap s !! l with
  | Some d => (inr tt, mkState (<[l := f d]> (heap s)) (logged s))
  | None => (inl ReferenceError, s)
  end.

(** [self.logger.info(msg)]. *)
Definition logger_info (msg : message) : M unit := fun s =>
  (inr tt, mkState (heap s) (logged s ++ [(INFO, msg)])).

(** The argument of the logging call of every builder when the input
    already has edges: the parenthesised expression ends in a comma, so it
    is a tuple with one element, the concatenation of the two adjacent
    string literals. *)
Definition overwrite_message : message :=
  Tuple ["WARNING: GraphBuilder received graph with pre-existing structure. Will overwrite."].

Definition warn_if_structure (d : Data) : M unit :=
  match edge_index d with
  | Some _ => logger_info overwrite_message
  | None => mret tt
  end.

(** ** Tensor operations used by the builders *)

(** One index of an advanced-indexing list on a dimension of size [d]:
    [-d <= c < d], negative indices count from the end. *)
Definition wrap_index (d : nat) (c : Z) : option nat :=
  if decide (0 <= c < Z.of_nat d)%Z then Some (Z.to_nat c)
  else if decide (- Z.of_nat d <= c < 0)%Z then Some (Z.to_nat (c + Z.of_nat d))
  else None.

(** [t[:, columns]]. *)
Definition index_columns (t : Tensor2) (columns : list Z) : exn + Tensor2 :=
  match mapM (wrap_index (shape1 t)) columns with
  | Some js =>
      inr (mkTensor2 (length js) (map (fun r => map (fun j => nth j r 0%R) js) (rows t)))
  | None => inl IndexError
  end.

(** [v.unsqueeze(dim=0) == v.unsqueeze(dim=1)]: by broadcasting, entry
    [i][j] compares [v[j]] (from the row vector) with [v[i]] (from the
    column vector). *)
Definition outer_eq (v : list Z) : list (list bool) :=
  map (fun vi => map (fun vj => bool_decide (vj = vi)) v) v.

(** Elementwise operations on matrices.  The binary one is applied to
    two matrices of one shape, which is what the builders hand it on a
    well-formed object ([wf_data]); on shapes that differ torch raises,
    while [zip_with] stops at the shorter one. *)
Definition mmap {A B} (f : A -> B) (m : list (list A)) : list (list B) :=
  map (map f) m.

Definition mzip_with {A B C} (f : A -> B -> C)
    (m1 : list (list A)) (m2 : list (list B)) : list (list C) :=
  zip_with (zip_with f) m1 m2.

(** [m.sum(axis=1)]. *)
Definition sum_axis1 (m : list (list R)) : list R := map tsum m.

(** [m / v.unsqueeze(dim=1)]: row [i] of [m] divided by [v[i]]. *)
Definition div_rows (m : list (list R)) (v : list R) : list (list R) :=
  zip_with (fun row s => map (fun a => (a / s)%R) row) m v.

(** [torch.where(c)] on a boolean matrix: the index pairs of the true
    entries, in row-major order. *)
Definition true_indices (row : list bool) : list nat :=
  filter (fun j => nth j row false = true) (seq 0 (length row)).

Definition where_ (c : list (list bool)) : list (nat * nat) :=
  flat_map (fun i => map (pair i) (true_indices (nth i c []))) (seq 0 (length c)).

(** [m[sources, targets]]. *)
Definition gather (m : list (list R)) (idx : list (nat * nat)) : list R :=
  map (fun p => nth (snd p) (nth (fst p) m []) 0%R) idx.

(** ** Collaborators outside [graph_builders.py] *)

(** Modelled from the spec: [calculate_distance_matrix] is imported from
    [graphnet.models.utils] and not defined in [graph_builders.py].
    Spec 4.1: entry [i][j] is the Euclidean distance between row [i] and
    row [j] of the (column-restricted) coordinates. *)
Definition euclidean_distance (a b : list R) : R :=
  sqrt (tsum (zip_with (fun u v => ((u - v) ^ 2)%R) a b)).

Definition calculate_distance_matrix (xyz_coords : Tensor2) : list (list R) :=
  map (fun a => map (fun b => euclidean_distance a b) (rows xyz_coords))
      (rows xyz_coords).

(** Neighbour search of [torch_geometric.nn], shared by [knn_graph] and
    [radius_graph]: nodes are row indices of [pts]; two nodes may be joined
    only when [batch] assigns them to the same example. *)
Section Neighbours.
Variables (pts : Tensor2) (batch : list Z).

Definition dist (i j : nat) : R :=
  euclidean_distance (nth i (rows pts) []) (nth j (rows pts) []).

Definition same_example (i j : nat) : bool :=
  bool_decide (batch !! i = batch !! j).

(** The nodes a node [i] may be joined with: every other node of its
    example, in ascending index order ([loop=False]). *)
Definition candidates (i : nat) : list nat :=
  filter (fun j => j <> i /\ same_example i j = true) (seq 0 (length (rows pts))).

(** Stable insertion sort of node indices by a real-valued key: nodes
    with equal keys keep their ascending index order. *)
Fixpoint insert_by (key : nat -> R) (a : nat) (l : list nat) : list nat :=
  match l with
  | [] => [a]
  | h :: t => if decide (key a <= key h)%R then a :: h :: t
              else h :: insert_by key a t
  end.

Definition sort_by (key : nat -> R) (l : list nat) : list nat :=
  foldr (insert_by key) [] l.

(** Modelled from the spec: [knn_graph(x, k, batch)] is imported from
    [torch_geometric.nn] and not defined in [graph_builders.py]; it is
    called with its defaults [loop=False], [flow='source_to_target'].
    Spec 4.2: for every node [i], the [k] nodes of the same example,
    [i] excluded, closest to [i], ties broken by ascending index; one
    edge per such neighbour [j], oriented [j -> i].  The number of
    neighbours is a natural number. *)
Definition knn_graph (k : nat) : list (nat * nat) :=
  flat_map (fun i => map (fun j => (j, i)) (take k (sort_by (dist i) (candidates i))))
           (seq 0 (length (rows pts))).

(** The nodes of the example of [i], other than [i], at distance at most
    [r] from [i]. *)
Definition within (r : R) (i : nat) : list nat :=
  filter (fun j => (dist i j <= r)%R) (candidates i).

(** Modelled from the spec: [radius_graph(x, r, batch)] is imported from
    [torch_geometric.nn] and not defined in [graph_builders.py].
    Spec 4.3: join every pair of distinct nodes of the same example at
    distance at most [r], both orientations; an edge is oriented from the
    neighbour [j] to the node [i], as for [knn_graph].  Nothing but what
    the specification states is put into the model: it joins every such
    pair, however many there are. *)
Definition radius_graph (r : R) : list (nat * nat) :=
  flat_map (fun i => map (fun j => (j, i)) (within r i))
           (seq 0 (length (rows pts))).
End Neighbours.

(** [tensor.to(device)] moves the storage and keeps the values; with
    [device = None], the default of the builders, it is the tensor
    itself. *)
Definition to {A} (t : A) (device : option string) : A := t.

(** ** The builders *)

Definition default_columns : list Z := [0; 1; 2]%Z.

Module KNNGraphBuilder.
Record t := mk {
  _nb_nearest_neighbours : nat;
  _columns : list Z;
  _device : option string
}.

Definition __init__ (nb_nearest_neighbours : nat)
    (columns : option (list Z)) (device : option string) : t :=
  mk nb_nearest_neighbours (default default_columns columns) device.

Definition forward (self : t) (data : loc) : M loc :=
  d ← read data;
  warn_if_structure d;;
  xyz ← lift (index_columns (x d) (_columns self));
  modify data (set_edge_index
    (to (knn_graph xyz (batch d) (_nb_nearest_neighbours self)) (_device self)));;
  mret data.
End KNNGraphBuilder.

Module RadialGraphBuilder.
Record t := mk {
  _radius : R;
  _columns : list Z;
  _device : option string
}.

Definition __init__ (radius : R)
    (columns : option (list Z)) (device : option string) : t :=
  mk radius (default default_columns columns) device.

Definition forward (self : t) (data : loc) : M loc :=
  d ← read data;
  warn_if_structure d;;
  xyz ← lift (index_columns (x d) (_columns self));
  modify data (set_edge_index
    (to (radius_graph xyz (batch d) (_radius self)) (_device self)));;
  mret data.
End RadialGraphBuilder.

Module EuclideanGraphBuilder.
Record t := mk {
  _sigma : R;
  _threshold : R;
  _columns : list Z
}.

(** [threshold] defaults to [0.0]. *)
Definition __init__ (sigma : R) (threshold : option R)
    (columns : option (list Z)) : t :=
  mk sigma (default 0%R threshold) (default default_columns columns).

Section Forward.
Variable self : t.

(** [torch.exp(-0.5 * distance_matrix**2 / self._sigma**2)] *)
Definition affinity_matrix (distance_matrix : list (list R)) : list (list R) :=
  mmap (fun dij => exp (-0.5 * dij ^ 2 / _sigma self ^ 2)%R) distance_matrix.

(** [torch.exp(affinity_matrix) / exp_row_sums.unsqueeze(dim=1)] with
    [exp_row_sums = torch.exp(affinity_matrix).sum(axis=1)] *)
Definition weighted_adj_matrix (affinity : list (list R)) : list (list R) :=
  let exp_row_sums := sum_axis1 (mmap exp affinity) in
  div_rows (mmap exp affinity) exp_row_sums.

(** [torch.where((weighted_adj_matrix > self._threshold) & (batch_mask))] *)
Definition sources_targets (weighted : list (list R))
    (batch_mask : list (list bool)) : list (nat * nat) :=
  where_ (mzip_with andb
            (mmap (fun w => bool_decide (_threshold self < w)%R) weighted)
            batch_mask).

Definition forward (data : loc) : M loc :=
  d ← read data;
  warn_if_structure d;;
  xyz_coords ← lift (index_columns (x d) (_columns self));
  let batch_mask := outer_eq (batch d) in
  let distance_matrix := calculate_distance_matrix xyz_coords in
  let weighted := weighted_adj_matrix (affinity_matrix distance_matrix) in
  let st := sources_targets weighted batch_mask in
  let edge_weights := gather weighted st in
  modify data (set_edge_index st);;
  modify data (set_edge_weight edge_weights);;
  mret data.
End Forward.
End EuclideanGraphBuilder.

(** The subclasses of [GraphBuilder], and the call [builder(data)]. *)
Inductive GraphBuilder :=
  | KNN (self : KNNGraphBuilder.t)
  | Radial (self : RadialGraphBuilder.t)
  | Euclidean (self : EuclideanGraphBuilder.t).

Definition forward (b : GraphBuilder) : loc -> M loc :=
  match b with
  | KNN self => KNNGraphBuilder.forward self
  | Radial self => RadialGraphBuilder.forward self
  | Euclidean self => EuclideanGraphBuilder.forward self
  end.

Definition columns (b : GraphBuilder) : list Z :=
  match b with
  | KNN self => KNNGraphBuilder._columns self
  | Radial self => RadialGraphBuilder._columns self
  | Euclidean self => EuclideanGraphBuilder._columns self
  end.

(** ** Vocabulary of the statements *)

(** The call [m] started in [s] returns a reference to an object equal
    to [d']. *)
Definition returns (m : M loc) (s : State) (d' : Data) : Prop :=
  exists l s', m s = (inr l, s') /\ heap s' !! l = Some d'.

(** The call [m] started in [s] raises. *)
Definition raises (m : M loc) (s : State) : Prop :=
  exists e s', m s = (inl e, s').

(** Every index of [columns] addresses a column of [t]. *)
Definition columns_in_range (t : Tensor2) (cols : list Z) : Prop :=
  Forall (fun c => (- Z.of_nat (shape1 t) <= c < Z.of_nat (shape1 t))%Z) cols.

(** The state after the optional log record. *)
Definition warned (d : Data) (s : State) : State :=
  match edge_index d with
  | Some _ => mkState (heap s) (logged s ++ [(INFO, overwrite_message)])
  | None => s
  end.

(** Entry [i][j] of a float matrix. *)
Definition entry (m : list (list R)) (i j : nat) : R := nth j (nth i m []) 0%R.

(** Number of nodes that share the batch id of node [p]. *)
Definition batch_size (batch : list Z) (p : nat) : nat :=
  length (filter (fun j => batch !! j = batch !! p) (seq 0 (length batch))).

(** Edges whose target is [p]. *)
Definition incoming (E : list (nat * nat)) (p : nat) : list (nat * nat) :=
  filter (fun e => snd e = p) E.

(** The formulas of the affinity builder as the specification words them,
    on the points [pts] (the coordinates restricted to the selected
    columns): Gaussian affinity, then the exponential of the affinity
    divided by the sum of the exponentials over the whole row. *)
Section AffinityFormulas.
Variables (sigma : R) (pts : Tensor2).

Definition A_spec (i j : nat) : R :=
  exp (-0.5 * dist pts i j ^ 2 / sigma ^ 2)%R.

Definition W_spec (i j : nat) : R :=
  (exp (A_spec i j) /
   tsum (map (fun k => exp (A_spec i k)) (seq 0 (length (rows pts)))))%R.
End AffinityFormulas.

#[global] Instance columns_in_range_dec t cols : Decision (columns_in_range t cols).
Proof. unfold columns_in_range. apply _. Defined.

(** The object a successful call leaves behind, given the selected
    coordinates [xyz]. *)
Definition output (b : GraphBuilder) (d : Data) (xyz : Tensor2) : Data :=
  match b with
  | KNN self =>
      set_edge_index
        (knn_graph xyz (batch d) (KNNGraphBuilder._nb_nearest_neighbours self)) d
  | Radial self =>
      set_edge_index (radius_graph xyz (batch d) (RadialGraphBuilder._radius self)) d
  | Euclidean self =>
      let weighted :=
        EuclideanGraphBuilder.weighted_adj_matrix
          (EuclideanGraphBuilder.affinity_matrix self (calculate_distance_matrix xyz)) in
      let st := EuclideanGraphBuilder.sources_targets self weighted (outer_eq (batch d)) in
      set_edge_weight (gather weighted st) (set_edge_index st d)
  end.

(** Entry [i][j] of a matrix, when it exists. *)
Definition mlookup {A} (m : list (list A)) (i j : nat) : option A :=
  m !! i ≫= fun row => row !! j.

(** The adjacency a builder assigns to [data.edge_index]: the right-hand
    side of the assignment, from the selected coordinates [xyz] and the
    batch assignment. *)
Definition adjacency (b : GraphBuilder) (batch : list Z) (xyz : Tensor2) :
    list (nat * nat) :=
  match b with
  | KNN self => knn_graph xyz batch (KNNGraphBuilder._nb_nearest_neighbours self)
  | Radial self => radius_graph xyz batch (RadialGraphBuilder._radius self)
  | Euclidean self =>
      EuclideanGraphBuilder.sources_targets self
        (EuclideanGraphBuilder.weighted_adj_matrix
           (EuclideanGraphBuilder.affinity_matrix self (calculate_distance_matrix xyz)))
        (outer_eq batch)
  end.

(** The largest finite double, [2^1024 - 2^971].  On Python floats
    [self._sigma**2] raises [OverflowError] when the square exceeds it;
    exact arithmetic has no such bound, so a statement that says for which
    [sigma] a call returns assumes that [sigma^2] stays below it. *)
Definition float_max : R := IZR (2 ^ 1024 - 2 ^ 971).

(** The same object without an adjacency. *)
Definition clear_edge_index (d : Data) : Data :=
  mkData (x d) (batch d) None (edge_weight d) (attrs d).

(** ** Concrete inputs *)

(** The scenario of the specification: two events, three hits in the
    first and two in the second. *)
Definition scenario_x : Tensor2 :=
  mkTensor2 3 [[0; 0; 0]; [1; 0; 0]; [0; 1; 0]; [5; 5; 5]; [5; 5; 6]]%R.

Definition scenario : Data :=
  mkData scenario_x [0; 0; 0; 1; 1]%Z None None ∅.

(** The same hits with an adjacency and weights left by an earlier call. *)
Definition scenario_with_edges : Data :=
  mkData scenario_x [0; 0; 0; 1; 1]%Z (Some [(0, 3); (3, 0)]%nat) (Some [1; 1]%R) ∅.

Definition store_of (d : Data) : State := mkState {[1%positive := d]} [].

(** Number of edges the object holds once the call has returned (0 when
    the call raises). *)
Definition edge_count (m : M loc) (s : State) : nat :=
  match m s with
  | (inr l, s') => length (default [] (heap s' !! l ≫= edge_index))
  | (inl _, _) => 0
  end.

(** One event with two hits at distance 2. *)
Definition two_hits_x : Tensor2 := mkTensor2 3 [[0; 0; 0]; [2; 0; 0]]%R.

Definition two_hits : Data := mkData two_hits_x [0; 0]%Z None None ∅.

(** One event with three hits on a line, the middle one listed last. *)
Definition line_x : Tensor2 := mkTensor2 3 [[0; 0; 0]; [3; 0; 0]; [1; 0; 0]]%R.

(** ** Proof automation *)

(** Unfolds a call of [forward] down to the operations on the state. *)
Ltac run_forward :=
  unfold forward, KNNGraphBuilder.forward, RadialGraphBuilder.forward,
    EuclideanGraphBuilder.forward, mbind, M_bind, read, warn_if_structure,
    warned, lift, modify, logger_info, mret, M_ret, to.

(** Closing tactics for the side conditions of concrete inputs. *)
Ltac concrete_wf := split; [repeat constructor | reflexivity].
Ltac concrete_columns :=
  unfold columns_in_range; simpl; repeat constructor; lia.

(** ** Vocabulary of the further properties *)

(** Row-major order on index pairs: by source, then by target. *)
Definition row_major (e1 e2 : nat * nat) : Prop :=
  (fst e1 < fst e2)%nat \/ (fst e1 = fst e2 /\ (snd e1 < snd e2)%nat).

(** The weights stored for the edges that leave node [i], given the edge
    list and the parallel weight list. *)
Definition weights_from (E : list (nat * nat)) (w : list R) (i : nat) : list R :=
  map snd (filter (fun p => fst (fst p) = i) (zip E w)).

(** Two feature tensors of the same shape that carry the same values in
    the columns [cols] address. *)
Definition agree_on (cols : list Z) (t1 t2 : Tensor2) : Prop :=
  shape1 t1 = shape1 t2 /\ length (rows t1) = length (rows t2) /\
  forall i c j, c ∈ cols -> wrap_index (shape1 t1) c = Some j ->
    nth j (nth i (rows t1) []) 0%R = nth j (nth i (rows t2) []) 0%R.

(** * [icemix.py]: from a batch of pulses to a padded tensor

    Source: [src/graphnet/models/gnn/icemix.py], [convert_data].  The
    function pads with [torch.inf] and compares with it, so here a float
    is a real number or one of the special values. *)

Module icemix.

Inductive float := Fin (r : R) | PInf | NInf | NaN.

(** [torch.ne(v, torch.inf)] on one value. *)
Definition ne_inf (v : float) : bool :=
  match v with PInf => false | _ => true end.

(** What the operations modelled here raise. *)
Inductive error :=
  | SplitError          (* [torch.split]: the sizes do not add up to the
                           length of the tensor (a [RuntimeError]) *)
  | PadError            (* [pad_sequence]: called on no sequence at all *)
  | IndexError          (* [x[:, :, 1]]: the last dimension is shorter than 2 *)
  | ZeroDivisionError.  (* [//] or [/] by the integer 0 *)

(** A float tensor of shape [(length frows, width)]. *)
Record FTensor := mkFTensor { width : nat; frows : list (list float) }.

Definition wf_ftensor (t : FTensor) : Prop :=
  Forall (fun r => length r = width t) (frows t).

(** [torch.split(rows, sizes)] with a list of sizes: consecutive chunks of
    the given lengths; the sizes must add up to the number of rows. *)
Fixpoint chunks (rows : list (list float)) (sizes : list nat) :
    list (list (list float)) :=
  match sizes with
  | [] => []
  | n :: sizes' => take n rows :: chunks (drop n rows) sizes'
  end.

Definition split (rows : list (list float)) (sizes : list nat) :
    error + list (list (list float)) :=
  if decide (sum_list sizes = length rows) then inr (chunks rows sizes)
  else inl SplitError.

(** [pad_sequence(sequences, batch_first=True, padding_value=v)] on
    sequences of rows of width [w]: every sequence is extended with rows
    of [v] to the length of the longest one. *)
Definition pad_sequence (sequences : list (list (list float))) (w : nat)
    (v : float) : error + list (list (list float)) :=
  match sequences with
  | [] => inl PadError
  | _ =>
      let L := max_list (map length sequences) in
      inr (map (fun sq => sq ++ replicate (L - length sq) (replicate w v))
               sequences)
  end.

(** [torch.ne(x[:, :, 1], torch.inf)] on a tensor whose last dimension
    has size [w]. *)
Definition ne_inf_feature_1 (x : list (list (list float))) (w : nat) :
    error + list (list bool) :=
  if decide (2 <= w)%nat
  then inr (map (map (fun row => ne_inf (nth 1 row (Fin 0)))) x)
  else inl IndexError.

(** [x[~mask] = 0]: the rows at the positions where [mask] is false are
    overwritten with zeros. *)
Definition zero_unmasked (x : list (list (list float)))
    (mask : list (list bool)) : list (list (list float)) :=
  zip_with (zip_with (fun row (m : bool) =>
                        if m then row else map (fun _ => Fin 0) row)) x mask.

(** [convert_data(data)], as a function of the two attributes it reads,
    [data.x] and [data.n_pulses] (pulse counts, one per event). *)
Definition convert_data (x : FTensor) (n_pulses : list nat) :
    error + (list (list (list float)) * list (list bool)) :=
  match split (frows x) n_pulses with
  | inl e => inl e
  | inr x_list =>
      match pad_sequence x_list (width x) PInf with
      | inl e => inl e
      | inr padded =>
          match ne_inf_feature_1 padded (width x) with
          | inl e => inl e
          | inr mask => inr (zero_unmasked padded mask, mask)
          end
      end
  end.

(** The padded length: the largest pulse count. *)
Definition Lmax (n_pulses : list nat) : nat := max_list n_pulses.

(** Feature 1 of no pulse is [+inf]. *)
Definition feature_1_finite (x : FTensor) : Prop :=
  Forall (fun row => nth 1 row (Fin 0) <> PInf) (frows x).

(** What one sequence of pulses becomes: its rows, each kept or zeroed
    according to its own feature 1, followed by zero rows up to the padded
    length [L]; and its row of the mask. *)
Definition converted_seq (w L : nat) (sq : list (list float)) : list (list float) :=
  map (fun row => if ne_inf (nth 1 row (Fin 0)) then row
                  else map (fun _ => Fin 0) row) sq
  ++ replicate (L - length sq) (replicate w (Fin 0)).

Definition mask_of_seq (L : nat) (sq : list (list float)) : list bool :=
  map (fun row => ne_inf (nth 1 row (Fin 0))) sq ++ replicate (L - length sq) false.

(** [mask.sum(-1)]: the number of true entries of each row. *)
Definition count_true (mask : list (list bool)) : list nat :=
  map (fun row => length (filter (fun m => m = true) row)) mask.

(** ** The transformer models: what [__init__] and [forward] compute
       themselves

    The layers ([FourierEncoder], [SpacetimeEncoder], [Block_rel],
    [Block]) are classes of other modules; a layer or its constructor is a
    parameter below, a function that may raise. *)

(** [a // b] and [a / b] on Python integers. *)
Definition floordiv (a b : Z) : error + Z :=
  if decide (b = 0%Z) then inl ZeroDivisionError else inr (a / b)%Z.

Definition truediv (a b : Z) : error + R :=
  if decide (b = 0%Z) then inl ZeroDivisionError else inr (IZR a / IZR b)%R.

(** [range(n)]. *)
Definition range (n : Z) : list Z := seqZ 0 n.

(** A list comprehension whose element expression may raise: the elements
    are evaluated in order and the first exception ends the evaluation. *)
Fixpoint comprehension {A B} (f : A -> error + B) (l : list A) : error + list B :=
  match l with
  | [] => inr []
  | a :: l' =>
      match f a with
      | inl e => inl e
      | inr b =>
          match comprehension f l' with
          | inl e => inl e
          | inr bs => inr (b :: bs)
          end
      end
  end.

(** The keyword arguments of one [Block(...)] call. *)
Record BlockArgs := mkBlockArgs {
  dim : Z;
  num_heads : Z;
  mlp_ratio : Z;
  drop_path : R;
  init_values : Z
}.

Section Blocks.
Context {B : Type}.
(** The constructor of the class [Block]. *)
Variable Block : BlockArgs -> error + B.

(** [Block(dim=dim, num_heads=dim // head_size, mlp_ratio=4,
           drop_path=0.0 * (i / (depth - 1)), init_values=1)]:
    the arguments are evaluated from left to right, then the constructor
    runs. *)
Definition make_block (dim head_size depth i : Z) : error + B :=
  match floordiv dim head_size with
  | inl e => inl e
  | inr heads =>
      match truediv i (depth - 1) with
      | inl e => inl e
      | inr q => Block (mkBlockArgs dim heads 4 (0 * q) 1)
      end
  end.

(** [[Block(...) for i in range(depth)]] of [DeepIce.__init__] and of
    [DeepIceWithDynEdge.__init__]. *)
Definition make_blocks (dim head_size depth : Z) : error + list B :=
  comprehension (make_block dim head_size depth) (range depth).
End Blocks.

(** [attn_mask = torch.zeros(mask.shape); attn_mask[~mask] = -torch.inf]. *)
Definition attn_mask_of (mask : list (list bool)) : list (list float) :=
  map (map (fun m : bool => if m then Fin 0 else NInf)) mask.

(** [torch.cat([torch.ones(batch_size, 1, dtype=mask.dtype), mask], 1)]
    with [batch_size = mask.shape[0]]. *)
Definition with_cls_position (mask : list (list bool)) : list (list bool) :=
  map (cons true) mask.

Section Sandwich.
Context {T Bias : Type}.

(** The loop of [DeepIce.forward] over [self.sandwich]:
    [for i, blk in enumerate(self.sandwich):
         x = blk(x, attn_mask, rel_pos_bias)
         if i + 1 == self.n_rel: rel_pos_bias = None].
    A block is a function that may raise; [i] is the index of the first
    block of the list. *)
Fixpoint sandwich_loop
    (blocks : list (T -> list (list float) -> option Bias -> error + T))
    (n_rel : Z) (attn_mask : list (list float)) (i : Z) (x : T)
    (rel_pos_bias : option Bias) : error + T :=
  match blocks with
  | [] => inr x
  | blk :: blocks' =>
      match blk x attn_mask rel_pos_bias with
      | inl e => inl e
      | inr x' =>
          sandwich_loop blocks' n_rel attn_mask (i + 1) x'
            (if decide (i + 1 = n_rel)%Z then None else rel_pos_bias)
      end
  end.

(** The same blocks applied one after the other, block [i] with the bias
    that [schedule i] gives. *)
Fixpoint apply_scheduled
    (blocks : list (T -> list (list float) -> option Bias -> error + T))
    (schedule : Z -> option Bias) (attn_mask : list (list float)) (i : Z)
    (x : T) : error + T :=
  match blocks with
  | [] => inr x
  | blk :: blocks' =>
      match blk x attn_mask (schedule i) with
      | inl e => inl e
      | inr x' => apply_scheduled blocks' schedule attn_mask (i + 1) x'
      end
  end.
End Sandwich.


(** [mask.nonzero()[:, 0]] of [DeepIceWithDynEdge.forward]: the row index
    of every true entry of the mask, in row-major order. *)
Definition batch_index (mask : list (list bool)) : list nat :=
  map fst (where_ mask).

(** Three pulses in a first event and one in a second, two features. *)
Definition pulses : FTensor :=
  mkFTensor 2 [[Fin 1; Fin 10]; [Fin 2; Fin 20]; [Fin 3; Fin 30]; [Fin 4; Fin 40]].

End icemix.

(** ** Column selection *)

Lemma wrap_index_is_Some d c :
  is_Some (wrap_index d c) <-> (- Z.of_nat d <= c < Z.of_nat d)%Z.
Proof.
  unfold wrap_index. repeat case_decide; split; intros H'; try lia; eauto.
  destruct H' as [? ?]; discriminate.
Qed.

Lemma mapM_wrap_is_Some d cols :
  is_Some (mapM (wrap_index d) cols) <->
  Forall (fun c => (- Z.of_nat d <= c < Z.of_nat d)%Z) cols.
Proof.
  rewrite mapM_is_Some. apply Forall_proper; [|done].
  intros c. apply wrap_index_is_Some.
Qed.

Lemma index_columns_ok t cols :
  columns_in_range t cols -> exists xyz, index_columns t cols = inr xyz /\
    length (rows xyz) = length (rows t).
Proof.
  intros H. apply mapM_wrap_is_Some in H as [js Hjs].
  unfold index_columns. rewrite Hjs. eexists; split; [done|].
  simpl. by rewrite length_map.
Qed.

Lemma index_columns_raise t cols :
  ~ columns_in_range t cols -> index_columns t cols = inl IndexError.
Proof.
  intros H. unfold index_columns.
  destruct (mapM _ _) eqn:E; [|done].
  destruct H. apply mapM_wrap_is_Some. eauto.
Qed.

Lemma index_columns_inr t cols xyz :
  index_columns t cols = inr xyz ->
  columns_in_range t cols /\ length (rows xyz) = length (rows t).
Proof.
  unfold index_columns. destruct (mapM _ _) eqn:E; [|done].
  intros [= <-]. split.
  - apply mapM_wrap_is_Some. eauto.
  - simpl. by rewrite length_map.
Qed.

(** ** What a call does to the state *)


Lemma forward_run b data s d xyz :
  heap s !! data = Some d ->
  index_columns (x d) (columns b) = inr xyz ->
  forward b data s =
    (inr data, mkState (<[data := output b d xyz]> (heap s)) (logged (warned d s))).
Proof.
  intros Hd Hx. destruct b; run_forward; simpl in *; rewrite Hd;
    destruct (edge_index d); simpl; rewrite Hx; simpl; rewrite ?Hd; try reflexivity.
  all: cbn [heap logged]; rewrite lookup_insert_eq; cbn [heap logged]; by rewrite insert_insert_eq.
Qed.

Lemma forward_raise b data s d e :
  heap s !! data = Some d ->
  index_columns (x d) (columns b) = inl e ->
  forward b data s = (inl e, warned d s).
Proof.
  intros Hd Hx. destruct b; run_forward; simpl in *; rewrite Hd;
    destruct (edge_index d); simpl; rewrite Hx; reflexivity.
Qed.

Lemma forward_returns b data s d xyz :
  heap s !! data = Some d ->
  index_columns (x d) (columns b) = inr xyz ->
  returns (forward b data) s (output b d xyz).
Proof.
  intros Hd Hx. eexists _, _. split; [by apply forward_run|].
  simpl. apply lookup_insert_eq.
Qed.

(** ** Lists and matrices *)

Lemma elem_of_flat_map {A B} (f : A -> list B) (l : list A) (y : B) :
  y ∈ flat_map f l <-> exists a, a ∈ l /\ y ∈ f a.
Proof.
  rewrite list_elem_of_In, in_flat_map. setoid_rewrite list_elem_of_In.
  reflexivity.
Qed.

Lemma elem_of_map {A B} (f : A -> B) (l : list A) (y : B) :
  y ∈ map f l <-> exists a, y = f a /\ a ∈ l.
Proof. exact (list_elem_of_fmap f l y). Qed.

Lemma lookup_map {A B} (f : A -> B) (l : list A) (i : nat) :
  map f l !! i = f <$> l !! i.
Proof. exact (list_lookup_fmap f l i). Qed.

Lemma nth_nth_mlookup {A} (m : list (list A)) i j (d : A) :
  nth j (nth i m []) d = default d (mlookup m i j).
Proof.
  unfold mlookup. rewrite !nth_lookup. destruct (m !! i); simpl; [done|].
  by rewrite ?nth_lookup.
Qed.

Lemma mlookup_mmap {A B} (f : A -> B) m i j :
  mlookup (mmap f m) i j = f <$> mlookup m i j.
Proof.
  unfold mlookup, mmap. rewrite lookup_map.
  destruct (m !! i); simpl; [apply lookup_map|done].
Qed.

Lemma mlookup_mzip_with {A B C} (f : A -> B -> C) m1 m2 i j :
  mlookup (mzip_with f m1 m2) i j =
  mlookup m1 i j ≫= fun a => mlookup m2 i j ≫= fun b => Some (f a b).
Proof.
  unfold mlookup, mzip_with. rewrite lookup_zip_with.
  destruct (m1 !! i) as [r1|]; simpl; [|done].
  destruct (m2 !! i) as [r2|]; simpl.
  - apply lookup_zip_with.
  - by destruct (r1 !! j).
Qed.

Lemma mlookup_outer_eq v i j :
  mlookup (outer_eq v) i j =
  v !! i ≫= fun vi => v !! j ≫= fun vj => Some (bool_decide (vj = vi)).
Proof.
  unfold mlookup, outer_eq. rewrite lookup_map.
  destruct (v !! i); simpl; [|done]. rewrite lookup_map.
  by destruct (v !! j).
Qed.

Lemma mlookup_div_rows m v i j :
  mlookup (div_rows m v) i j =
  mlookup m i j ≫= fun a => v !! i ≫= fun s => Some (a / s)%R.
Proof.
  unfold mlookup, div_rows. rewrite lookup_zip_with.
  destruct (m !! i) as [row|]; simpl; [|done].
  destruct (v !! i); simpl.
  - rewrite lookup_map. by destruct (row !! j).
  - by destruct (row !! j).
Qed.

Lemma elem_of_true_indices row j :
  j ∈ true_indices row <-> row !! j = Some true.
Proof.
  unfold true_indices. rewrite list_elem_of_filter, elem_of_seq, nth_lookup.
  split.
  - intros [H _]. destruct (row !! j); simpl in *; congruence.
  - intros H. rewrite H. split; [done|].
    apply lookup_lt_Some in H. lia.
Qed.

Lemma elem_of_where c i j :
  (i, j) ∈ where_ c <-> mlookup c i j = Some true.
Proof.
  unfold where_, mlookup. rewrite elem_of_flat_map. split.
  - intros (i' & Hi & H). apply elem_of_map in H as (j' & [= -> ->] & Hj).
    apply elem_of_true_indices in Hj. apply elem_of_seq in Hi.
    rewrite nth_lookup in Hj. destruct (c !! i') eqn:E; simpl in *; [done|].
    by rewrite lookup_nil in Hj.
  - intros H. destruct (c !! i) as [row|] eqn:E; simpl in *; [|done].
    exists i. split.
    + apply elem_of_seq. apply lookup_lt_Some in E. lia.
    + apply elem_of_map. exists j. split; [done|].
      apply elem_of_true_indices. by rewrite (nth_lookup_Some _ _ _ _ E).
Qed.

Lemma lookup_gather m idx k :
  gather m idx !! k = (fun p => entry m (fst p) (snd p)) <$> idx !! k.
Proof. unfold gather. apply lookup_map. Qed.

Lemma length_gather m idx : length (gather m idx) = length idx.
Proof. unfold gather. apply length_map. Qed.

(** ** Neighbour search *)

Section NeighbourFacts.
Variables (pts : Tensor2) (batch : list Z).
Let n := length (rows pts).

Lemma elem_of_candidates i j :
  j ∈ candidates pts batch i <->
  j <> i /\ batch !! i = batch !! j /\ (j < n)%nat.
Proof.
  unfold candidates, same_example.
  rewrite list_elem_of_filter, elem_of_seq, bool_decide_eq_true. subst n.
  intuition lia.
Qed.

Lemma insert_by_perm key a l : insert_by key a l ≡ₚ a :: l.
Proof.
  induction l as [|h t IH]; simpl; [done|].
  case_decide; [done|]. rewrite IH. apply Permutation_swap.
Qed.

Lemma sort_by_perm key l : sort_by key l ≡ₚ l.
Proof.
  induction l as [|a l IH]; simpl; [done|].
  rewrite insert_by_perm. by rewrite IH.
Qed.

Lemma length_sort_by key l : length (sort_by key l) = length l.
Proof. by rewrite sort_by_perm. Qed.

Lemma elem_of_sort_by key l j : j ∈ sort_by key l <-> j ∈ l.
Proof. by rewrite sort_by_perm. Qed.

Lemma elem_of_knn_graph k j i :
  (j, i) ∈ knn_graph pts batch k <->
  (i < n)%nat /\ j ∈ take k (sort_by (dist pts i) (candidates pts batch i)).
Proof.
  unfold knn_graph. rewrite elem_of_flat_map. split.
  - intros (i' & Hi & H). apply elem_of_map in H as (j' & [= -> ->] & Hj).
    apply elem_of_seq in Hi. split; [subst n; lia|done].
  - intros [Hi Hj]. exists i. split; [apply elem_of_seq; subst n; lia|].
    apply elem_of_map. eauto.
Qed.

Lemma knn_graph_candidates k j i :
  (j, i) ∈ knn_graph pts batch k -> (i < n)%nat /\ j ∈ candidates pts batch i.
Proof.
  rewrite elem_of_knn_graph. intros [Hi Hj]. split; [done|].
  apply subseteq_take in Hj. by apply elem_of_sort_by in Hj.
Qed.

Lemma elem_of_within r i j :
  j ∈ within pts batch r i <->
  (dist pts i j <= r)%R /\ j ∈ candidates pts batch i.
Proof. unfold within. by rewrite list_elem_of_filter. Qed.

Lemma elem_of_radius_graph r j i :
  (j, i) ∈ radius_graph pts batch r <->
  (i < n)%nat /\ j ∈ within pts batch r i.
Proof.
  unfold radius_graph. rewrite elem_of_flat_map. split.
  - intros (i' & Hi & H). apply elem_of_map in H as (j' & [= -> ->] & Hj).
    apply elem_of_seq in Hi. split; [subst n; lia|done].
  - intros [Hi Hj]. exists i. split; [apply elem_of_seq; subst n; lia|].
    apply elem_of_map. eauto.
Qed.

Lemma radius_graph_within r j i :
  (j, i) ∈ radius_graph pts batch r ->
  (i < n)%nat /\ (dist pts i j <= r)%R /\ j ∈ candidates pts batch i.
Proof.
  rewrite elem_of_radius_graph. intros [Hi Hj]. split; [done|].
  by apply elem_of_within in Hj.
Qed.
End NeighbourFacts.

(** The distance of the model is symmetric and vanishes on the diagonal. *)
Lemma euclidean_distance_sym a b : euclidean_distance a b = euclidean_distance b a.
Proof.
  unfold euclidean_distance. f_equal. f_equal.
  revert b. induction a as [|u a IH]; intros [|v b]; simpl; try done.
  f_equal; [ring|apply IH].
Qed.

Lemma dist_sym pts i j : dist pts i j = dist pts j i.
Proof. apply euclidean_distance_sym. Qed.

(** ** The neighbours chosen by [knn_graph] are nearest ones *)

Lemma insert_by_sorted key a l :
  StronglySorted (fun i j => (key i <= key j)%R) l ->
  StronglySorted (fun i j => (key i <= key j)%R) (insert_by key a l).
Proof.
  induction 1 as [|h t Ht IH Hh]; simpl.
  - repeat constructor.
  - case_decide as Hle.
    + constructor; [by constructor|]. constructor; [done|].
      eapply Forall_impl; [exact Hh|]. intros j Hj. simpl in *. lra.
    + constructor; [done|]. rewrite insert_by_perm.
      constructor; [lra|done].
Qed.

Lemma sort_by_sorted key l :
  StronglySorted (fun i j => (key i <= key j)%R) (sort_by key l).
Proof.
  induction l as [|a l IH]; simpl; [constructor|]. by apply insert_by_sorted.
Qed.

(** A neighbour that [knn_graph] joins to [i] is no farther from [i] than
    any node of the same example that it leaves out. *)
Lemma knn_graph_nearest pts batch k i j j' :
  (j, i) ∈ knn_graph pts batch k ->
  j' ∈ candidates pts batch i ->
  (j', i) ∉ knn_graph pts batch k ->
  (dist pts i j <= dist pts i j')%R.
Proof.
  intros [Hi Hj]%elem_of_knn_graph Hc Hout.
  set (l := sort_by (dist pts i) (candidates pts batch i)) in *.
  assert (j' ∈ drop k l) as Hdrop.
  { assert (j' ∈ take k l ++ drop k l) as Hin
      by (rewrite take_drop; by apply elem_of_sort_by).
    apply elem_of_app in Hin as [Hin|Hin]; [|done].
    destruct Hout. by apply elem_of_knn_graph. }
  pose proof (sort_by_sorted (dist pts i) (candidates pts batch i)) as Hs.
  fold l in Hs. rewrite <- (take_drop k l) in Hs.
  exact (StronglySorted_app_1_elem_of _ _ _ _ _ Hs Hj Hdrop).
Qed.

(** ** Edges of the affinity builder *)

Lemma elem_of_sources_targets self weighted mask i j :
  (i, j) ∈ EuclideanGraphBuilder.sources_targets self weighted mask <->
  exists w, mlookup weighted i j = Some w /\
            (EuclideanGraphBuilder._threshold self < w)%R /\
            mlookup mask i j = Some true.
Proof.
  unfold EuclideanGraphBuilder.sources_targets.
  rewrite elem_of_where, mlookup_mzip_with, mlookup_mmap. split.
  - destruct (mlookup weighted i j) as [w|]; simpl; [|done].
    destruct (mlookup mask i j) as [[]|]; simpl; try done.
    + rewrite andb_true_r. intros [= H]. apply bool_decide_eq_true in H. eauto.
    + rewrite andb_false_r. done.
  - intros (w & -> & Hw & ->). simpl. rewrite andb_true_r.
    f_equal. by apply bool_decide_eq_true.
Qed.

Lemma mask_same_batch (v : list Z) i j :
  mlookup (outer_eq v) i j = Some true <->
  exists e, v !! i = Some e /\ v !! j = Some e.
Proof.
  rewrite mlookup_outer_eq. split.
  - destruct (v !! i) as [vi|]; simpl; [|done].
    destruct (v !! j) as [vj|]; simpl; [|done].
    intros [= H]. apply bool_decide_eq_true in H. subst. eauto.
  - intros (e & -> & ->). simpl. f_equal. by apply bool_decide_eq_true.
Qed.

(** ** C1 *)

Lemma candidates_same_batch pts (batch : list Z) i j :
  length batch = length (rows pts) ->
  j ∈ candidates pts batch i ->
  exists e, batch !! j = Some e /\ batch !! i = Some e.
Proof.
  intros Hlen (_ & Heq & Hj)%elem_of_candidates.
  destruct (lookup_lt_is_Some_2 batch j) as [e He]; [lia|].
  exists e. split; [done|]. by rewrite Heq.
Qed.

(** C1. For each of the three builders, whenever the call returns, every
    edge (i, j) of the edge list it stores joins two nodes that carry the
    same batch id. *)
Theorem no_cross_batch_edge (b : GraphBuilder) (data : loc) (s : State) (d : Data) :
  heap s !! data = Some d ->
  wf_data d ->
  columns_in_range (x d) (columns b) ->
  exists d' E,
    returns (forward b data) s d' /\ edge_index d' = Some E /\
    forall i j, (i, j) ∈ E ->
      exists e, batch d !! i = Some e /\ batch d !! j = Some e.
Proof.
  intros Hd [_ Hlen] Hcols.
  destruct (index_columns_ok _ _ Hcols) as (xyz & Hxyz & Hn).
  unfold num_nodes in Hlen. rewrite <- Hn in Hlen.
  exists (output b d xyz). destruct b as [self|self|self]; simpl.
  - eexists. split; [by apply (forward_returns (KNN self))|]. split; [done|].
    intros i j Hij. apply knn_graph_candidates in Hij as [_ Hij].
    by apply candidates_same_batch in Hij.
  - eexists. split; [by apply (forward_returns (Radial self))|]. split; [done|].
    intros i j Hij. apply radius_graph_within in Hij as (_ & _ & Hij).
    by apply candidates_same_batch in Hij.
  - eexists. split; [by apply (forward_returns (Euclidean self))|]. split; [done|].
    intros i j Hij. apply elem_of_sources_targets in Hij as (w & _ & _ & Hm).
    by apply mask_same_batch in Hm.
Qed.


Lemma no_cross_batch_edge_witness :
  exists d' E,
    returns (forward (KNN (KNNGraphBuilder.__init__ 1 None None)) 1%positive)
            (store_of scenario) d' /\ edge_index d' = Some E /\
    forall i j, (i, j) ∈ E ->
      exists e, batch scenario !! i = Some e /\ batch scenario !! j = Some e.
Proof.
  apply (no_cross_batch_edge (KNN (KNNGraphBuilder.__init__ 1 None None))
           1%positive (store_of scenario) scenario).
  - reflexivity.
  - concrete_wf.
  - concrete_columns.
Defined.

(** ** C10 *)

(** C10. A call that returns hands back the very reference it was given;
    in the store only the object behind that reference has changed, and in
    that object only [edge_index] (and, for the affinity builder,
    [edge_weight]): the features [x], the batch assignment and every other
    attribute are as before. *)
Theorem forward_frame (b : GraphBuilder) (data : loc) (s : State) (d : Data) :
  heap s !! data = Some d ->
  columns_in_range (x d) (columns b) ->
  exists d' s',
    forward b data s = (inr data, s') /\
    heap s' = <[data := d']> (heap s) /\
    x d' = x d /\ batch d' = batch d /\ attrs d' = attrs d /\
    match b with
    | Euclidean _ => True
    | _ => edge_weight d' = edge_weight d
    end /\
    forall l, l <> data -> heap s' !! l = heap s !! l.
Proof.
  intros Hd Hcols.
  destruct (index_columns_ok _ _ Hcols) as (xyz & Hxyz & _).
  exists (output b d xyz). eexists. split; [by apply forward_run|].
  simpl. split; [done|].
  repeat split; try by destruct b.
  intros l Hl. by apply lookup_insert_ne.
Qed.

Lemma forward_frame_witness :
  exists d' s',
    forward (Euclidean (EuclideanGraphBuilder.__init__ 1 None None)) 1%positive
            (store_of scenario) = (inr 1%positive, s') /\
    heap s' = <[1%positive := d']> (heap (store_of scenario)) /\
    x d' = x scenario /\ batch d' = batch scenario /\ attrs d' = attrs scenario /\
    True /\
    forall l, l <> 1%positive -> heap s' !! l = heap (store_of scenario) !! l.
Proof.
  apply (forward_frame (Euclidean (EuclideanGraphBuilder.__init__ 1 None None))
           1%positive (store_of scenario) scenario).
  - reflexivity.
  - concrete_columns.
Defined.

(** ** C6 *)

(** C6. When the input object already carries an [edge_index], each
    builder hands the overwrite message to the logger (at level [INFO], as
    a tuple holding the text) and carries on: the call returns, the
    object's [edge_index] is the adjacency the builder computes from the
    selected coordinates and the batch assignment, in which the old edge
    list has no part, and the store is the one the same call leaves when
    the object carries no [edge_index] at all. *)
Theorem overwrite_with_warning (b : GraphBuilder) (data : loc) (s : State)
    (d : Data) (old : list (nat * nat)) :
  heap s !! data = Some d ->
  wf_data d ->
  edge_index d = Some old ->
  columns_in_range (x d) (columns b) ->
  exists xyz h' d',
    index_columns (x d) (columns b) = inr xyz /\
    forward b data s =
      (inr data, mkState h' (logged s ++ [(INFO, overwrite_message)])) /\
    forward b data (mkState (<[data := clear_edge_index d]> (heap s)) (logged s)) =
      (inr data, mkState h' (logged s)) /\
    h' !! data = Some d' /\
    edge_index d' = Some (adjacency b (batch d) xyz).
Proof.
  intros Hd _ Hold Hcols.
  destruct (index_columns_ok _ _ Hcols) as (xyz & Hxyz & _).
  exists xyz, (<[data := output b d xyz]> (heap s)), (output b d xyz).
  split; [done|]. split; [|split; [|split; [apply lookup_insert_eq|]]].
  - rewrite (forward_run b data s d xyz Hd Hxyz). unfold warned. by rewrite Hold.
  - rewrite (forward_run b data _ (clear_edge_index d) xyz);
      [|apply lookup_insert_eq|done].
    simpl. rewrite insert_insert_eq. by destruct b.
  - by destruct b.
Qed.

Lemma overwrite_with_warning_witness :
  exists xyz h' d',
    index_columns (x scenario_with_edges)
      (columns (Radial (RadialGraphBuilder.__init__ 1.5 None None))) = inr xyz /\
    forward (Radial (RadialGraphBuilder.__init__ 1.5 None None)) 1%positive
            (store_of scenario_with_edges) =
      (inr 1%positive, mkState h' ([] ++ [(INFO, overwrite_message)])) /\
    forward (Radial (RadialGraphBuilder.__init__ 1.5 None None)) 1%positive
            (mkState (<[1%positive := clear_edge_index scenario_with_edges]>
                        (heap (store_of scenario_with_edges))) []) =
      (inr 1%positive, mkState h' []) /\
    h' !! 1%positive = Some d' /\
    edge_index d' =
      Some (adjacency (Radial (RadialGraphBuilder.__init__ 1.5 None None))
              (batch scenario_with_edges) xyz).
Proof.
  apply (overwrite_with_warning (Radial (RadialGraphBuilder.__init__ 1.5 None None))
           1%positive (store_of scenario_with_edges) scenario_with_edges
           [(0, 3); (3, 0)]%nat).
  - reflexivity.
  - concrete_wf.
  - reflexivity.
  - concrete_columns.
Defined.

(** ** C5 *)

Lemma affinity_matrix_opp self D :
  EuclideanGraphBuilder.affinity_matrix
    (EuclideanGraphBuilder.mk (- EuclideanGraphBuilder._sigma self)
       (EuclideanGraphBuilder._threshold self)
       (EuclideanGraphBuilder._columns self)) D =
  EuclideanGraphBuilder.affinity_matrix self D.
Proof.
  unfold EuclideanGraphBuilder.affinity_matrix, mmap. simpl.
  apply map_ext. intros row. apply map_ext. intros dij.
  f_equal. f_equal. ring.
Qed.

(** The claim of C5 fails: with [sigma = -1] the call on the scenario of
    the specification returns instead of raising. *)
Lemma negative_sigma_is_accepted :
  (-1 <= 0)%R /\
  ~ raises (forward (Euclidean (EuclideanGraphBuilder.__init__ (-1) None None))
              1%positive) (store_of scenario).
Proof.
  split; [lra|].
  intros (e & s' & H).
  destruct (index_columns_ok (x scenario) default_columns) as (xyz & Hxyz & _);
    [concrete_columns|].
  rewrite (forward_run _ 1%positive (store_of scenario) scenario xyz) in H;
    [discriminate|reflexivity|exact Hxyz].
Qed.

(** C5, amended. The affinity builder does not look at the sign of
    [sigma]: on a well-formed object whose selected columns are in range,
    the call returns for every [sigma] whose square is a finite float,
    negative or zero as well as positive, and it behaves with [- sigma]
    as it does with [sigma]. *)
Theorem sigma_is_not_validated (self : EuclideanGraphBuilder.t) (data : loc)
    (s : State) (d : Data) :
  heap s !! data = Some d ->
  wf_data d ->
  columns_in_range (x d) (EuclideanGraphBuilder._columns self) ->
  (EuclideanGraphBuilder._sigma self ^ 2 <= float_max)%R ->
  (exists d', returns (forward (Euclidean self) data) s d') /\
  forward (Euclidean (EuclideanGraphBuilder.mk
                        (- EuclideanGraphBuilder._sigma self)
                        (EuclideanGraphBuilder._threshold self)
                        (EuclideanGraphBuilder._columns self))) data s =
  forward (Euclidean self) data s.
Proof.
  intros Hd _ Hcols _.
  destruct (index_columns_ok _ _ Hcols) as (xyz & Hxyz & _).
  split.
  - exists (output (Euclidean self) d xyz).
    by apply (forward_returns (Euclidean self)).
  - rewrite (forward_run (Euclidean self) data s d xyz Hd Hxyz).
    rewrite (forward_run _ data s d xyz Hd); [|exact Hxyz].
    simpl. by rewrite affinity_matrix_opp.
Qed.

Lemma sigma_is_not_validated_witness :
  (exists d',
     returns (forward (Euclidean (EuclideanGraphBuilder.mk (-2) 0 [0; 1; 2]%Z))
                1%positive) (store_of scenario) d') /\
  forward (Euclidean (EuclideanGraphBuilder.mk (- -2) 0 [0; 1; 2]%Z)) 1%positive
          (store_of scenario) =
  forward (Euclidean (EuclideanGraphBuilder.mk (-2) 0 [0; 1; 2]%Z)) 1%positive
          (store_of scenario).
Proof.
  apply (sigma_is_not_validated (EuclideanGraphBuilder.mk (-2) 0 [0; 1; 2]%Z)
           1%positive (store_of scenario) scenario).
  - reflexivity.
  - concrete_wf.
  - concrete_columns.
  - unfold float_max. cbn [EuclideanGraphBuilder._sigma].
    replace ((-2) ^ 2)%R with (IZR 4) by (simpl; lra).
    apply IZR_le. vm_compute. discriminate.
Defined.

(** ** The matrices of the affinity builder *)

Lemma map_nth_seq' {A B} (f : A -> B) (l : list A) (d : A) :
  map f l = map (fun k => f (nth k l d)) (seq 0 (length l)).
Proof.
  apply list_eq. intros i. rewrite !lookup_map.
  destruct (l !! i) as [a|] eqn:E; simpl.
  - rewrite lookup_seq_lt by (by eapply lookup_lt_Some). simpl.
    by rewrite (nth_lookup_Some _ _ _ _ E).
  - rewrite lookup_seq_ge; [done|]. by apply lookup_ge_None.
Qed.

Lemma weighted_adj_matrix_rows A :
  EuclideanGraphBuilder.weighted_adj_matrix A =
  map (fun row => map (fun a => (exp a / tsum (map exp row))%R) row) A.
Proof.
  unfold EuclideanGraphBuilder.weighted_adj_matrix, div_rows, sum_axis1, mmap.
  change (map tsum (map (map exp) A)) with (tsum <$> (map exp <$> A)).
  change (map (map exp) A) with (map exp <$> A).
  rewrite zip_with_fmap_r, zip_with_fmap_l, zip_with_fmap_r, zip_with_diag.
  apply map_ext. intros row. by rewrite map_map.
Qed.

Lemma mlookup_weighted A i j :
  mlookup (EuclideanGraphBuilder.weighted_adj_matrix A) i j =
  A !! i ≫= fun row => row !! j ≫= fun a =>
    Some (exp a / tsum (map exp row))%R.
Proof.
  rewrite weighted_adj_matrix_rows. unfold mlookup. rewrite lookup_map.
  destruct (A !! i) as [row|]; simpl; [|done].
  rewrite lookup_map. by destruct (row !! j).
Qed.

Section Matrices.
Variables (self : EuclideanGraphBuilder.t) (xyz : Tensor2).
Let n := length (rows xyz).
Let sigma := EuclideanGraphBuilder._sigma self.
Let D := calculate_distance_matrix xyz.
Let A := EuclideanGraphBuilder.affinity_matrix self D.
Let W := EuclideanGraphBuilder.weighted_adj_matrix A.

Lemma lookup_row i (Hi : (i < n)%nat) :
  rows xyz !! i = Some (nth i (rows xyz) []).
Proof.
  destruct (nth_lookup_or_length (rows xyz) i []) as [H|H]; [done|].
  subst n. lia.
Qed.

Lemma distance_matrix_entry i j :
  (i < n)%nat -> (j < n)%nat -> mlookup D i j = Some (dist xyz i j).
Proof.
  intros Hi Hj. subst D. unfold mlookup, calculate_distance_matrix.
  rewrite lookup_map, (lookup_row i Hi). simpl.
  rewrite lookup_map, (lookup_row j Hj). done.
Qed.

Lemma affinity_row i :
  (i < n)%nat ->
  A !! i = Some (map (fun k => A_spec sigma xyz i k) (seq 0 n)).
Proof.
  intros Hi. subst A D. unfold EuclideanGraphBuilder.affinity_matrix, mmap,
    calculate_distance_matrix.
  rewrite map_map, lookup_map, (lookup_row i Hi). simpl. f_equal.
  rewrite map_map. subst n. by rewrite (map_nth_seq' _ _ []).
Qed.

Lemma affinity_matrix_entry i j :
  (i < n)%nat -> (j < n)%nat -> mlookup A i j = Some (A_spec sigma xyz i j).
Proof.
  intros Hi Hj. unfold mlookup. rewrite (affinity_row i Hi). simpl.
  rewrite lookup_map, lookup_seq_lt by done. done.
Qed.

Lemma weighted_adj_matrix_entry i j :
  (i < n)%nat -> (j < n)%nat -> mlookup W i j = Some (W_spec sigma xyz i j).
Proof.
  intros Hi Hj. subst W. rewrite mlookup_weighted, (affinity_row i Hi). simpl.
  rewrite lookup_map, lookup_seq_lt by done. simpl.
  unfold W_spec. by rewrite map_map.
Qed.

Lemma weighted_adj_matrix_shape i j w :
  mlookup W i j = Some w -> (i < n)%nat /\ (j < n)%nat.
Proof.
  subst W. rewrite mlookup_weighted. intros H.
  destruct (A !! i) as [row|] eqn:E; simpl in H; [|done].
  assert (i < n)%nat as Hi.
  { apply lookup_lt_Some in E. subst A D.
    unfold EuclideanGraphBuilder.affinity_matrix, mmap,
      calculate_distance_matrix in E.
    by rewrite !length_map in E. }
  split; [done|]. rewrite (affinity_row i Hi) in E. injection E as <-.
  destruct (_ !! j) eqn:E'; simpl in H; [|done].
  apply lookup_lt_Some in E'. by rewrite length_map, length_seq in E'.
Qed.
End Matrices.

Lemma index_columns_rows t cols xyz :
  index_columns t cols = inr xyz ->
  exists js, mapM (wrap_index (shape1 t)) cols = Some js /\
    forall i, nth i (rows xyz) [] =
              if decide (i < length (rows t))%nat
              then map (fun j => nth j (nth i (rows t) []) 0%R) js else [].
Proof.
  unfold index_columns. destruct (mapM _ _) as [js|]; [|done].
  intros [= <-]. exists js. split; [done|]. intros i. simpl.
  rewrite nth_lookup, lookup_map. case_decide as Hi.
  - destruct (lookup_lt_is_Some_2 (rows t) i Hi) as [r Hr].
    rewrite Hr. simpl. by rewrite (nth_lookup_Some _ _ _ _ Hr).
  - rewrite lookup_ge_None_2; [done|lia].
Qed.

Lemma entry_mlookup m i j v : mlookup m i j = Some v -> entry m i j = v.
Proof. intros H. unfold entry. by rewrite nth_nth_mlookup, H. Qed.

(** ** C2 *)

(** C2. On the coordinates [xyz] that the column selection yields, the
    affinity builder computes the distance matrix, the Gaussian affinity
    [A_spec] and the doubly exponential row normalisation [W_spec], and the
    weight stored at the position of an edge (i, j) is [W_spec] at (i, j). *)
Theorem affinity_edge_weights (self : EuclideanGraphBuilder.t) (data : loc)
    (s : State) (d : Data) (xyz : Tensor2) :
  heap s !! data = Some d ->
  wf_data d ->
  index_columns (x d) (EuclideanGraphBuilder._columns self) = inr xyz ->
  EuclideanGraphBuilder._sigma self <> 0%R ->
  let sigma := EuclideanGraphBuilder._sigma self in
  let D := calculate_distance_matrix xyz in
  let A := EuclideanGraphBuilder.affinity_matrix self D in
  let W := EuclideanGraphBuilder.weighted_adj_matrix A in
  (exists js, mapM (wrap_index (shape1 (x d))) (EuclideanGraphBuilder._columns self)
                = Some js /\
     forall i, (i < num_nodes d)%nat ->
       nth i (rows xyz) [] = map (fun j => nth j (nth i (rows (x d)) []) 0%R) js) /\
  (forall i j, (i < num_nodes d)%nat -> (j < num_nodes d)%nat ->
     entry D i j = dist xyz i j /\
     entry A i j = exp (-0.5 * entry D i j ^ 2 / sigma ^ 2)%R /\
     entry W i j =
       (exp (entry A i j) /
        tsum (map (fun k => exp (entry A i k)) (seq 0 (num_nodes d))))%R /\
     entry W i j = W_spec sigma xyz i j) /\
  exists d' E w,
    returns (forward (Euclidean self) data) s d' /\
    edge_index d' = Some E /\ edge_weight d' = Some w /\
    length w = length E /\
    forall k i j, E !! k = Some (i, j) -> w !! k = Some (W_spec sigma xyz i j).
Proof.
  intros Hd Hwf Hxyz _ sigma D A W.
  destruct (index_columns_inr _ _ _ Hxyz) as [_ Hn].
  unfold num_nodes. rewrite <- Hn.
  assert (forall i j, (i < length (rows xyz))%nat -> (j < length (rows xyz))%nat ->
            entry D i j = dist xyz i j /\
            entry A i j = A_spec sigma xyz i j /\
            entry W i j = W_spec sigma xyz i j) as Hentries.
  { intros i j Hi Hj. repeat split; apply entry_mlookup.
    - by apply distance_matrix_entry.
    - by apply affinity_matrix_entry.
    - by apply weighted_adj_matrix_entry. }
  split; [|split].
  - destruct (index_columns_rows _ _ _ Hxyz) as (js & Hjs & Hrows).
    exists js. split; [done|]. intros i Hi. rewrite Hrows.
    rewrite Hn in Hi. by rewrite decide_True.
  - intros i j Hi Hj. destruct (Hentries i j Hi Hj) as (HD & HA & HW).
    split; [done|]. split; [by rewrite HA, HD|]. split; [|done].
    rewrite HW, HA. unfold W_spec. f_equal. f_equal.
    apply map_ext_in. intros k Hk%in_seq.
    destruct (Hentries i k Hi) as (_ & -> & _); [lia|done].
  - eexists (output (Euclidean self) d xyz), _, _.
    split; [by apply forward_returns|]. simpl.
    split; [done|]. split; [done|]. split; [apply length_gather|].
    intros k i j Hk. rewrite lookup_gather, Hk. simpl. f_equal.
    assert ((i, j) ∈ EuclideanGraphBuilder.sources_targets self W
                        (outer_eq (batch d))) as Hin
      by (by eapply list_elem_of_lookup_2).
    apply elem_of_sources_targets in Hin as (w & Hw & _).
    destruct (weighted_adj_matrix_shape self xyz i j w Hw) as [Hi Hj].
    destruct (Hentries i j Hi Hj) as (_ & _ & HW). exact HW.
Qed.

Lemma affinity_edge_weights_witness :
  exists d' E w,
    returns (forward (Euclidean (EuclideanGraphBuilder.__init__ 1 (Some 0.3%R) None))
               1%positive) (store_of scenario) d' /\
    edge_index d' = Some E /\ edge_weight d' = Some w /\
    length w = length E /\
    forall k i j, E !! k = Some (i, j) -> w !! k = Some (W_spec 1 scenario_x i j).
Proof.
  destruct (affinity_edge_weights
              (EuclideanGraphBuilder.__init__ 1 (Some 0.3%R) None)
              1%positive (store_of scenario) scenario scenario_x)
    as (_ & _ & H).
  - reflexivity.
  - concrete_wf.
  - reflexivity.
  - simpl. lra.
  - exact H.
Defined.

(** ** C7 *)

Lemma tsum_ge_elem (l : list R) (v : R) :
  Forall (fun u => 0 < u)%R l -> v ∈ l -> (v <= tsum l)%R.
Proof.
  induction 1 as [|u l Hu Hl IH]; [by intros ?%elem_of_nil|].
  assert (0 <= tsum l)%R as Hsum.
  { clear IH. induction Hl; simpl; lra. }
  simpl. intros [->|Hin]%elem_of_cons; [lra|].
  specialize (IH Hin). lra.
Qed.

Lemma div_le_1 (a b : R) : (0 < b)%R -> (a <= b)%R -> (a / b <= 1)%R.
Proof.
  intros Hb Hab. assert (a / b * b = a)%R as H by (field; lra). nra.
Qed.

Lemma exp_row_positive (row : list R) : Forall (fun u => 0 < u)%R (map exp row).
Proof. apply Forall_forall. intros u (a & -> & _)%elem_of_map. apply exp_pos. Qed.

Lemma weighted_entry_bounds A i j w :
  mlookup (EuclideanGraphBuilder.weighted_adj_matrix A) i j = Some w ->
  (0 < w <= 1)%R.
Proof.
  rewrite mlookup_weighted.
  destruct (A !! i) as [row|]; simpl; [|done].
  destruct (row !! j) as [a|] eqn:Ej; simpl; [|done]. intros [= <-].
  assert (exp a <= tsum (map exp row))%R as Hle.
  { apply tsum_ge_elem; [apply exp_row_positive|].
    apply elem_of_map. exists a. split; [done|]. by eapply list_elem_of_lookup_2. }
  pose proof (exp_pos a) as Hpos.
  split.
  - apply Rdiv_lt_0_compat; lra.
  - apply div_le_1; lra.
Qed.

(** C7. Every weight the affinity builder stores is positive and at most
    one. *)
Theorem affinity_weight_range (self : EuclideanGraphBuilder.t) (data : loc)
    (s : State) (d : Data) :
  heap s !! data = Some d ->
  wf_data d ->
  columns_in_range (x d) (EuclideanGraphBuilder._columns self) ->
  EuclideanGraphBuilder._sigma self <> 0%R ->
  exists d' w,
    returns (forward (Euclidean self) data) s d' /\
    edge_weight d' = Some w /\
    forall v, v ∈ w -> (0 < v <= 1)%R.
Proof.
  intros Hd _ Hcols _.
  destruct (index_columns_ok _ _ Hcols) as (xyz & Hxyz & _).
  eexists (output (Euclidean self) d xyz), _.
  split; [by apply (forward_returns (Euclidean self))|]. simpl.
  split; [done|]. intros v Hv.
  apply elem_of_map in Hv as ([i j] & -> & Hin). simpl.
  apply elem_of_sources_targets in Hin as (w & Hw & _).
  change (nth j (nth i ?m []) 0%R) with (entry m i j).
  rewrite (entry_mlookup _ _ _ _ Hw). by eapply weighted_entry_bounds.
Qed.

Lemma affinity_weight_range_witness :
  exists d' w,
    returns (forward (Euclidean (EuclideanGraphBuilder.__init__ 1 None None))
               1%positive) (store_of scenario) d' /\
    edge_weight d' = Some w /\
    forall v, v ∈ w -> (0 < v <= 1)%R.
Proof.
  apply (affinity_weight_range (EuclideanGraphBuilder.__init__ 1 None None)
           1%positive (store_of scenario) scenario).
  - reflexivity.
  - concrete_wf.
  - concrete_columns.
  - simpl. lra.
Defined.

(** ** C9 *)

Lemma knn_graph_no_self_loop pts batch k i : (i, i) ∉ knn_graph pts batch k.
Proof.
  intros [_ H]%knn_graph_candidates. apply elem_of_candidates in H. tauto.
Qed.

Lemma radius_graph_no_self_loop pts batch r i : (i, i) ∉ radius_graph pts batch r.
Proof.
  intros (_ & _ & H)%radius_graph_within. apply elem_of_candidates in H. tauto.
Qed.

Lemma mask_diagonal (v : list Z) i :
  (i < length v)%nat -> mlookup (outer_eq v) i i = Some true.
Proof.
  intros Hi. apply mask_same_batch.
  destruct (lookup_lt_is_Some_2 v i Hi) as [e He]. eauto.
Qed.

(** C9. The same-batch mask of the affinity builder is true on the
    diagonal; so the pair (i, i) is among the edges, with weight
    [W_spec] at (i, i), as soon as that weight exceeds the threshold,
    and with threshold 0 every node gets its self-loop.  The k-nearest
    and the radial builder never store an edge (i, i). *)
Theorem affinity_self_loops (self : EuclideanGraphBuilder.t) (data : loc)
    (s : State) (d : Data) (xyz : Tensor2) :
  heap s !! data = Some d ->
  wf_data d ->
  index_columns (x d) (EuclideanGraphBuilder._columns self) = inr xyz ->
  EuclideanGraphBuilder._sigma self <> 0%R ->
  let sigma := EuclideanGraphBuilder._sigma self in
  let threshold := EuclideanGraphBuilder._threshold self in
  (forall i, (i < num_nodes d)%nat -> mlookup (outer_eq (batch d)) i i = Some true) /\
  (exists d' E w,
     returns (forward (Euclidean self) data) s d' /\
     edge_index d' = Some E /\ edge_weight d' = Some w /\
     (forall i, (i < num_nodes d)%nat -> (threshold < W_spec sigma xyz i i)%R ->
        exists k, E !! k = Some (i, i) /\ w !! k = Some (W_spec sigma xyz i i)) /\
     (threshold = 0%R -> forall i, (i < num_nodes d)%nat -> (i, i) ∈ E)) /\
  (forall b, (forall e, b <> Euclidean e) ->
     columns_in_range (x d) (columns b) ->
     exists d' E,
       returns (forward b data) s d' /\ edge_index d' = Some E /\
       forall i, (i, i) ∉ E).
Proof.
  intros Hd [_ Hlen] Hxyz _ sigma threshold.
  destruct (index_columns_inr _ _ _ Hxyz) as [_ Hn].
  set (W := EuclideanGraphBuilder.weighted_adj_matrix
              (EuclideanGraphBuilder.affinity_matrix self
                 (calculate_distance_matrix xyz))).
  assert (forall i, (i < num_nodes d)%nat -> (threshold < W_spec sigma xyz i i)%R ->
            (i, i) ∈ EuclideanGraphBuilder.sources_targets self W
                       (outer_eq (batch d))) as Hdiag.
  { intros i Hi Hw. apply elem_of_sources_targets.
    exists (W_spec sigma xyz i i). unfold num_nodes in Hi. rewrite <- Hn in Hi.
    split; [by apply weighted_adj_matrix_entry|]. split; [done|].
    apply mask_diagonal. rewrite Hlen. unfold num_nodes. by rewrite <- Hn. }
  split; [|split].
  - intros i Hi. apply mask_diagonal. by rewrite Hlen.
  - eexists (output (Euclidean self) d xyz), _, _.
    split; [by apply (forward_returns (Euclidean self))|]. simpl.
    split; [done|]. split; [done|]. split.
    + intros i Hi Hw. destruct (list_elem_of_lookup_1 _ _ (Hdiag i Hi Hw)) as [k Hk].
      exists k. split; [done|]. rewrite lookup_gather.
      fold W. rewrite Hk. simpl. f_equal. apply entry_mlookup.
      unfold num_nodes in Hi. rewrite <- Hn in Hi.
      by apply weighted_adj_matrix_entry.
    + intros Hzero i Hi. apply Hdiag; [done|]. rewrite Hzero.
      unfold num_nodes in Hi. rewrite <- Hn in Hi.
      pose proof (weighted_adj_matrix_entry self xyz i i Hi Hi) as HW.
      apply weighted_entry_bounds in HW. apply HW.
  - intros b Hb Hcols.
    destruct (index_columns_ok _ _ Hcols) as (xyz' & Hxyz' & _).
    exists (output b d xyz'). destruct b as [selfK|selfR|e]; simpl.
    + eexists. split; [by apply (forward_returns (KNN selfK))|]. split; [done|].
      intros i. apply knn_graph_no_self_loop.
    + eexists. split; [by apply (forward_returns (Radial selfR))|]. split; [done|].
      intros i. apply radius_graph_no_self_loop.
    + by destruct (Hb e).
Qed.

Lemma affinity_self_loops_witness :
  exists d' E w,
    returns (forward (Euclidean (EuclideanGraphBuilder.__init__ 1 None None))
               1%positive) (store_of scenario) d' /\
    edge_index d' = Some E /\ edge_weight d' = Some w /\
    (forall i, (i < 5)%nat -> (0 < W_spec 1 scenario_x i i)%R ->
       exists k, E !! k = Some (i, i) /\ w !! k = Some (W_spec 1 scenario_x i i)) /\
    (0%R = 0%R -> forall i, (i < 5)%nat -> (i, i) ∈ E).
Proof.
  destruct (affinity_self_loops (EuclideanGraphBuilder.__init__ 1 None None)
              1%positive (store_of scenario) scenario scenario_x)
    as (_ & H & _).
  - reflexivity.
  - concrete_wf.
  - reflexivity.
  - simpl. lra.
  - exact H.
Defined.

(** ** C8 *)

Lemma edge_count_forward b data s d xyz :
  heap s !! data = Some d ->
  index_columns (x d) (columns b) = inr xyz ->
  edge_count (forward b data) s =
  length (default [] (edge_index (output b d xyz))).
Proof.
  intros Hd Hxyz. unfold edge_count. rewrite (forward_run b data s d xyz Hd Hxyz).
  simpl. by rewrite lookup_insert_eq.
Qed.

Lemma tsum_squares_nonneg a b :
  (0 <= tsum (zip_with (fun u v => (u - v) ^ 2) a b))%R.
Proof.
  revert b. induction a as [|u a IH]; intros [|v b];
    cbn [zip_with tsum foldr]; try lra.
  specialize (IH b). pose proof (pow2_ge_0 (u - v)). unfold tsum in IH. lra.
Qed.

Lemma euclidean_distance_sq a b :
  (euclidean_distance a b ^ 2 = tsum (zip_with (fun u v => (u - v) ^ 2) a b))%R.
Proof. unfold euclidean_distance. apply pow2_sqrt, tsum_squares_nonneg. Qed.

Lemma div_le (a b c : R) : (0 < b)%R -> (a <= c * b)%R -> (a / b <= c)%R.
Proof.
  intros Hb Hab. assert (a / b * b = a)%R as H by (field; lra). nra.
Qed.

Lemma div_gt (a b c : R) : (0 < b)%R -> (c * b < a)%R -> (c < a / b)%R.
Proof.
  intros Hb Hab. assert (a / b * b = a)%R as H by (field; lra). nra.
Qed.

(** Bounds on the affinities of [two_hits]. *)
Lemma exp_minus_2_le : (exp (-2) <= 1 / 3)%R.
Proof.
  pose proof (exp_ineq1_le 2) as H2. pose proof (exp_pos (-2)) as Hp.
  assert (exp 2 * exp (-2) = 1)%R as H.
  { rewrite <- exp_plus. replace (2 + -2)%R with 0%R by ring. apply exp_0. }
  nra.
Qed.

Lemma exp_small_le (a : R) : (0 < a <= 1 / 3)%R -> (exp a <= 3 / 5 * exp 1)%R.
Proof.
  intros Ha.
  assert (exp 1 = exp a * exp (1 - a))%R as H.
  { rewrite <- exp_plus. f_equal. ring. }
  pose proof (exp_ineq1_le (1 - a)) as H1. pose proof (exp_pos a) as Hp.
  nra.
Qed.

Lemma exp_near_1_ge (a : R) : (7 / 9 <= a <= 1)%R -> (7 / 9 * exp 1 <= exp a)%R.
Proof.
  intros Ha.
  assert (exp a = exp 1 * exp (a - 1))%R as H.
  { rewrite <- exp_plus. f_equal. ring. }
  pose proof (exp_ineq1_le (a - 1)) as H1. pose proof (exp_pos 1) as Hp.
  nra.
Qed.

Lemma exp_le_exp_1 (a : R) : (a <= 1)%R -> (exp a <= exp 1)%R.
Proof.
  intros [Ha| ->]; [|lra]. left. by apply exp_increasing.
Qed.

Lemma exp_minus_2_9_bounds : (7 / 9 <= exp (-2 / 9) <= 1)%R.
Proof.
  split.
  - pose proof (exp_ineq1_le (-2 / 9)). lra.
  - rewrite <- exp_0. left. apply exp_increasing. lra.
Qed.

Lemma two_hits_dist_sq :
  (dist two_hits_x 0 0 ^ 2 = 0 /\ dist two_hits_x 0 1 ^ 2 = 4 /\
   dist two_hits_x 1 0 ^ 2 = 4 /\ dist two_hits_x 1 1 ^ 2 = 0)%R.
Proof.
  unfold dist. rewrite !euclidean_distance_sq.
  cbn [nth rows two_hits_x zip_with tsum foldr]. repeat split; ring.
Qed.

Lemma two_hits_affinity (sigma a : R) :
  exp (-0.5 * 4 / sigma ^ 2) = a ->
  A_spec sigma two_hits_x 0 0 = 1%R /\ A_spec sigma two_hits_x 0 1 = a /\
  A_spec sigma two_hits_x 1 0 = a /\ A_spec sigma two_hits_x 1 1 = 1%R.
Proof.
  intros Ha. destruct two_hits_dist_sq as (H00 & H01 & H10 & H11).
  unfold A_spec. rewrite H00, H01, H10, H11, Ha.
  replace (-0.5 * 0 / sigma ^ 2)%R with 0%R by (unfold Rdiv; ring).
  by rewrite exp_0.
Qed.

Lemma two_hits_weights (sigma a : R) :
  exp (-0.5 * 4 / sigma ^ 2) = a ->
  W_spec sigma two_hits_x 0 0 = (exp 1 / (exp 1 + (exp a + 0)))%R /\
  W_spec sigma two_hits_x 0 1 = (exp a / (exp 1 + (exp a + 0)))%R /\
  W_spec sigma two_hits_x 1 0 = (exp a / (exp a + (exp 1 + 0)))%R /\
  W_spec sigma two_hits_x 1 1 = (exp 1 / (exp a + (exp 1 + 0)))%R.
Proof.
  intros Ha. destruct (two_hits_affinity sigma a Ha) as (H00 & H01 & H10 & H11).
  unfold W_spec. cbn [rows two_hits_x length seq map tsum foldr].
  by rewrite H00, H01, H10, H11.
Qed.

Lemma two_hits_sigma_1 : (0.6 < W_spec 1 two_hits_x 0 0)%R.
Proof.
  destruct (two_hits_weights 1 (exp (-2))) as (-> & _).
  { f_equal. lra. }
  pose proof exp_minus_2_le as Hle. pose proof (exp_pos (-2)) as Hpos.
  pose proof (exp_small_le (exp (-2)) (conj Hpos Hle)) as H.
  pose proof (exp_pos 1). pose proof (exp_pos (exp (-2))).
  apply div_gt; lra.
Qed.

Lemma two_hits_sigma_3 i j :
  (i < 2)%nat -> (j < 2)%nat -> (W_spec 3 two_hits_x i j <= 0.6)%R.
Proof.
  intros Hi Hj.
  destruct (two_hits_weights 3 (exp (-2 / 9))) as (H00 & H01 & H10 & H11).
  { f_equal. lra. }
  pose proof exp_minus_2_9_bounds as Hb.
  pose proof (exp_near_1_ge _ Hb) as Hge.
  pose proof (exp_le_exp_1 (exp (-2 / 9)) (proj2 Hb)) as Hle.
  pose proof (exp_pos 1). pose proof (exp_pos (exp (-2 / 9))).
  destruct i as [|[|i]], j as [|[|j]]; try lia;
    rewrite ?H00, ?H01, ?H10, ?H11; apply div_le; lra.
Qed.

(** The claim of C8 fails: on two hits at distance 2 and with threshold
    0.6, raising [sigma] from 1 to 3 takes the number of edges from at
    least one down to none. *)
Lemma larger_sigma_loses_edges :
  (0 < 1 < 3)%R /\
  (edge_count (forward (Euclidean (EuclideanGraphBuilder.mk 3 0.6 default_columns))
                 1%positive) (store_of two_hits) <
   edge_count (forward (Euclidean (EuclideanGraphBuilder.mk 1 0.6 default_columns))
                 1%positive) (store_of two_hits))%nat.
Proof.
  split; [lra|].
  rewrite !(edge_count_forward _ 1%positive (store_of two_hits) two_hits two_hits_x)
    by reflexivity.
  unfold output, set_edge_weight, set_edge_index, default; cbn [edge_index from_option id].
  match goal with |- (length ?E3 < length ?E1)%nat =>
    assert (E3 = []) as ->; [|assert ((0, 0)%nat ∈ E1) as Hin]
  end.
  - apply elem_of_nil_inv. intros [i j] Hin.
    apply elem_of_sources_targets in Hin as (w & Hw & Ht & _).
    destruct (weighted_adj_matrix_shape _ _ _ _ _ Hw) as [Hi Hj].
    rewrite weighted_adj_matrix_entry in Hw by done. injection Hw as <-.
    simpl in Ht. pose proof (two_hits_sigma_3 i j Hi Hj). lra.
  - apply elem_of_sources_targets. exists (W_spec 1 two_hits_x 0 0).
    split; [by apply weighted_adj_matrix_entry; simpl; lia|].
    split; [exact two_hits_sigma_1|reflexivity].
  - destruct Hin; simpl; lia.
Qed.

Lemma all_weights_pass self A :
  (EuclideanGraphBuilder._threshold self <= 0)%R ->
  mmap (fun w => bool_decide (EuclideanGraphBuilder._threshold self < w)%R)
       (EuclideanGraphBuilder.weighted_adj_matrix A) =
  mmap (fun _ => true) A.
Proof.
  intros Ht. rewrite weighted_adj_matrix_rows. unfold mmap. rewrite map_map.
  apply map_ext. intros row. rewrite map_map. apply map_ext_in. intros a Ha.
  apply bool_decide_eq_true.
  assert (exp a <= tsum (map exp row))%R as Hle.
  { apply tsum_ge_elem; [apply exp_row_positive|].
    apply elem_of_map. exists a. split; [done|]. by apply list_elem_of_In. }
  pose proof (exp_pos a) as Hpos.
  assert (0 < exp a / tsum (map exp row))%R by (apply Rdiv_lt_0_compat; lra).
  lra.
Qed.

Lemma zip_with_andb_true {A} (r : list A) (b : list bool) :
  length r = length b -> zip_with andb (map (fun _ => true) r) b = b.
Proof.
  revert b. induction r as [|a r IH]; intros [|c b]; simpl; try done.
  intros [= H]. by rewrite IH.
Qed.

Lemma mzip_with_andb_true {A} (m : list (list A)) (c : list (list bool)) :
  Forall2 (fun r b => length r = length b) m c ->
  mzip_with andb (mmap (fun _ => true) m) c = c.
Proof.
  unfold mzip_with, mmap. induction 1 as [|r b m c Hrb _ IH]; simpl; [done|].
  by rewrite zip_with_andb_true, IH.
Qed.

Lemma all_same_batch_pairs self xyz (v : list Z) :
  length v = length (rows xyz) ->
  (EuclideanGraphBuilder._threshold self <= 0)%R ->
  EuclideanGraphBuilder.sources_targets self
    (EuclideanGraphBuilder.weighted_adj_matrix
       (EuclideanGraphBuilder.affinity_matrix self (calculate_distance_matrix xyz)))
    (outer_eq v) =
  where_ (outer_eq v).
Proof.
  intros Hlen Ht. unfold EuclideanGraphBuilder.sources_targets.
  rewrite all_weights_pass by done. f_equal.
  apply mzip_with_andb_true.
  unfold EuclideanGraphBuilder.affinity_matrix, mmap, calculate_distance_matrix,
    outer_eq.
  rewrite map_map. apply Forall2_fmap, Forall2_true.
  - intros a vi. by rewrite !length_map.
  - done.
Qed.

(** C8, amended. With a threshold that is zero (the default) or negative,
    raising [sigma] never lowers the number of edges: whatever [sigma] is,
    the builder then keeps exactly the ordered pairs of nodes with equal
    batch id, self-pairs included. *)
Theorem edge_count_monotone_at_threshold_0 (threshold sigma1 sigma2 : R)
    (cols : list Z) (data : loc) (s : State) (d : Data) :
  heap s !! data = Some d ->
  wf_data d ->
  columns_in_range (x d) cols ->
  (threshold <= 0)%R ->
  (0 < sigma1 <= sigma2)%R ->
  (edge_count (forward (Euclidean (EuclideanGraphBuilder.mk sigma1 threshold cols)) data) s
   <= edge_count (forward (Euclidean (EuclideanGraphBuilder.mk sigma2 threshold cols)) data) s)%nat /\
  forall sigma, (0 < sigma)%R ->
    edge_count (forward (Euclidean (EuclideanGraphBuilder.mk sigma threshold cols)) data) s
    = length (where_ (outer_eq (batch d))).
Proof.
  intros Hd [_ Hlen] Hcols Ht Hsigma.
  destruct (index_columns_ok _ _ Hcols) as (xyz & Hxyz & Hn).
  assert (forall sigma,
    edge_count (forward (Euclidean (EuclideanGraphBuilder.mk sigma threshold cols)) data) s
    = length (where_ (outer_eq (batch d)))) as Hcount.
  { intros sigma.
    rewrite (edge_count_forward _ data s d xyz Hd) by exact Hxyz.
    unfold output, set_edge_weight, set_edge_index, default;
      cbn [edge_index from_option id].
    rewrite all_same_batch_pairs; [done| |done].
    rewrite Hlen. unfold num_nodes. by rewrite Hn. }
  split; [by rewrite !Hcount|]. intros sigma _. apply Hcount.
Qed.

Lemma edge_count_monotone_at_threshold_0_witness :
  (edge_count (forward (Euclidean (EuclideanGraphBuilder.mk 1 0 default_columns))
                 1%positive) (store_of two_hits)
   <= edge_count (forward (Euclidean (EuclideanGraphBuilder.mk 3 0 default_columns))
                    1%positive) (store_of two_hits))%nat /\
  forall sigma, (0 < sigma)%R ->
    edge_count (forward (Euclidean (EuclideanGraphBuilder.mk sigma 0 default_columns))
                  1%positive) (store_of two_hits)
    = length (where_ (outer_eq (batch two_hits))).
Proof.
  apply (edge_count_monotone_at_threshold_0 0 1 3 default_columns 1%positive
           (store_of two_hits) two_hits).
  - reflexivity.
  - concrete_wf.
  - concrete_columns.
  - lra.
  - lra.
Defined.

(** ** C4 *)

Lemma filter_all {A} (P : A -> Prop) `{!forall a, Decision (P a)} (l : list A) :
  Forall P l -> filter P l = l.
Proof.
  induction 1 as [|a l Ha _ IH]; [done|]. by rewrite filter_cons_True, IH.
Qed.

Lemma filter_none {A} (P : A -> Prop) `{!forall a, Decision (P a)} (l : list A) :
  Forall (fun a => ~ P a) l -> filter P l = [].
Proof.
  induction 1 as [|a l Ha _ IH]; [done|]. by rewrite filter_cons_False, IH.
Qed.

(** The edges into [p] of a list built target by target. *)
Lemma incoming_flat_map (g : nat -> list nat) (l : list nat) (p : nat) :
  NoDup l ->
  incoming (flat_map (fun i => map (fun j => (j, i)) (g i)) l) p =
  if decide (p ∈ l) then map (fun j => (j, p)) (g p) else [].
Proof.
  unfold incoming. induction 1 as [|a l Ha Hl IH]; [done|].
  simpl. rewrite filter_app, IH.
  destruct (decide (a = p)) as [->|Hne].
  - rewrite (decide_True (P := p ∈ p :: l)) by left.
    rewrite (decide_False (P := p ∈ l)) by done.
    rewrite app_nil_r. apply filter_all, Forall_forall.
    by intros e (j & -> & _)%elem_of_map.
  - rewrite filter_none.
    + simpl. destruct (decide (p ∈ l)) as [Hin|Hnin].
      * rewrite (decide_True (P := p ∈ a :: l)) by (by right). done.
      * rewrite (decide_False (P := p ∈ a :: l)); [done|].
        by intros [->|?]%elem_of_cons.
    + apply Forall_forall. intros e (j & -> & _)%elem_of_map. done.
Qed.

(** Dropping one element that passes the test. *)
Lemma length_filter_without (Q : nat -> Prop) `{!forall j, Decision (Q j)}
    (p : nat) (l : list nat) :
  NoDup l -> Q p ->
  length (filter (fun j => j <> p /\ Q j) l) =
  (length (filter Q l) - (if decide (p ∈ l) then 1 else 0))%nat.
Proof.
  intros Hl Hp. induction Hl as [|a l Ha Hl IH]; [done|].
  rewrite !filter_cons. destruct (decide (a = p)) as [->|Hne].
  - rewrite (decide_True (P := p ∈ p :: l)) by left.
    rewrite (decide_False (P := p ∈ l)) in IH by done.
    destruct (decide (p <> p /\ Q p)) as [[? _]|_]; [done|].
    rewrite decide_True by done. simpl. lia.
  - assert ((p ∈ a :: l) <-> p ∈ l) as Hiff.
    { rewrite elem_of_cons. split; [intros [Heq|?]; [by subst|done]|by right]. }
    destruct (decide (Q a)) as [Hq|Hq].
    + rewrite decide_True by done. simpl. rewrite IH.
      destruct (decide (p ∈ l)) as [Hin|Hnin].
      * rewrite decide_True by (by apply Hiff).
        assert (0 < length (filter Q l))%nat; [|lia].
        assert (p ∈ filter Q l) as Hf by (by apply list_elem_of_filter).
        destruct (filter Q l); [by apply elem_of_nil in Hf|simpl; lia].
      * rewrite decide_False by (by rewrite Hiff). lia.
    + rewrite decide_False by tauto. rewrite IH.
      destruct (decide (p ∈ l)).
      * by rewrite decide_True by (by apply Hiff).
      * by rewrite decide_False by (by rewrite Hiff).
Qed.

Lemma length_candidates pts (batch : list Z) p :
  length batch = length (rows pts) ->
  (p < length batch)%nat ->
  length (candidates pts batch p) = (batch_size batch p - 1)%nat.
Proof.
  intros Hlen Hp. unfold candidates, batch_size, same_example. rewrite <- Hlen.
  rewrite (list_filter_iff _ (fun j => j <> p /\ batch !! j = batch !! p)).
  - rewrite (length_filter_without (fun j => batch !! j = batch !! p));
      [|apply NoDup_seq|done].
    rewrite decide_True; [done|]. apply elem_of_seq. lia.
  - intros j. rewrite bool_decide_eq_true. split; intros [? ?]; split; congruence.
Qed.

Lemma incoming_knn_graph pts batch k p :
  (p < length (rows pts))%nat ->
  incoming (knn_graph pts batch k) p =
  map (fun j => (j, p)) (take k (sort_by (dist pts p) (candidates pts batch p))).
Proof.
  intros Hp. unfold knn_graph.
  rewrite (incoming_flat_map
             (fun i => take k (sort_by (dist pts i) (candidates pts batch i))))
    by apply NoDup_seq.
  rewrite decide_True; [done|]. apply elem_of_seq. lia.
Qed.

(** C4. In the edge list of the k-nearest builder a node [p] whose batch
    has [n] nodes is the target of exactly [min k (n - 1)] edges; when
    [n < k + 1] every other node of the batch is joined to [p]; and a node
    alone in its batch is on no edge. *)
Theorem knn_in_degree (self : KNNGraphBuilder.t) (data : loc) (s : State)
    (d : Data) :
  heap s !! data = Some d ->
  wf_data d ->
  columns_in_range (x d) (KNNGraphBuilder._columns self) ->
  let k := KNNGraphBuilder._nb_nearest_neighbours self in
  exists d' E,
    returns (forward (KNN self) data) s d' /\ edge_index d' = Some E /\
    forall p, (p < num_nodes d)%nat ->
      length (incoming E p) = (k `min` (batch_size (batch d) p - 1))%nat /\
      ((batch_size (batch d) p < k + 1)%nat ->
         forall j, (j < num_nodes d)%nat -> j <> p ->
           batch d !! j = batch d !! p -> (j, p) ∈ E) /\
      (batch_size (batch d) p = 1%nat ->
         forall e, e ∈ E -> fst e <> p /\ snd e <> p).
Proof.
  intros Hd [_ Hlen] Hcols k.
  destruct (index_columns_ok _ _ Hcols) as (xyz & Hxyz & Hn).
  unfold num_nodes in *. rewrite <- Hn in *.
  eexists (output (KNN self) d xyz), _.
  split; [by apply (forward_returns (KNN self))|]. split; [done|].
  fold k. intros p Hp.
  pose proof (length_candidates xyz (batch d) p Hlen) as Hcand.
  rewrite Hlen in Hcand. specialize (Hcand Hp).
  split; [|split].
  - rewrite incoming_knn_graph by done.
    by rewrite length_map, length_take, length_sort_by, Hcand.
  - intros Hsmall j Hj Hjp Hsame. apply elem_of_knn_graph. split; [done|].
    rewrite take_ge by (rewrite length_sort_by; lia).
    apply elem_of_sort_by, elem_of_candidates. done.
  - intros Hone [j i] Hin. simpl.
    assert (candidates xyz (batch d) p = []) as Hnil.
    { apply length_zero_iff_nil. lia. }
    apply knn_graph_candidates in Hin as [Hi Hj].
    apply elem_of_candidates in Hj as (Hji & Heq & Hjn).
    split; intros ->.
    + assert (i ∈ candidates xyz (batch d) p) as Hc
        by (apply elem_of_candidates; done).
      rewrite Hnil in Hc. by apply elem_of_nil in Hc.
    + assert (j ∈ candidates xyz (batch d) p) as Hc
        by (apply elem_of_candidates; done).
      rewrite Hnil in Hc. by apply elem_of_nil in Hc.
Qed.

Lemma knn_in_degree_witness :
  exists d' E,
    returns (forward (KNN (KNNGraphBuilder.__init__ 3 None None)) 1%positive)
            (store_of scenario) d' /\ edge_index d' = Some E /\
    forall p, (p < 5)%nat ->
      length (incoming E p) = (3 `min` (batch_size (batch scenario) p - 1))%nat /\
      ((batch_size (batch scenario) p < 3 + 1)%nat ->
         forall j, (j < 5)%nat -> j <> p ->
           batch scenario !! j = batch scenario !! p -> (j, p) ∈ E) /\
      (batch_size (batch scenario) p = 1%nat ->
         forall e, e ∈ E -> fst e <> p /\ snd e <> p).
Proof.
  apply (knn_in_degree (KNNGraphBuilder.__init__ 3 None None) 1%positive
           (store_of scenario) scenario).
  - reflexivity.
  - concrete_wf.
  - concrete_columns.
Defined.

(** ** C3 *)

Lemma euclidean_distance_diag a : euclidean_distance a a = 0%R.
Proof.
  unfold euclidean_distance.
  replace (tsum (zip_with (fun u v => (u - v) ^ 2)%R a a)) with 0%R;
    [apply sqrt_0|].
  induction a as [|u a IH]; cbn [zip_with tsum foldr]; [done|].
  unfold tsum in IH. rewrite <- IH. ring.
Qed.

(** C3. The edges of the radial builder are exactly the pairs of distinct
    nodes of one batch at distance at most the radius: every edge (i, j)
    is such a pair (soundness), and every such pair is an edge, in both
    orientations (completeness). *)
Theorem radial_sound_and_complete (self : RadialGraphBuilder.t)
    (data : loc) (s : State) (d : Data) (xyz : Tensor2) :
  heap s !! data = Some d ->
  wf_data d ->
  index_columns (x d) (RadialGraphBuilder._columns self) = inr xyz ->
  let r := RadialGraphBuilder._radius self in
  exists d' E,
    returns (forward (Radial self) data) s d' /\ edge_index d' = Some E /\
    (forall i j, (i, j) ∈ E ->
       (i < num_nodes d)%nat /\ (j < num_nodes d)%nat /\
       (dist xyz i j <= r)%R /\ i <> j /\ batch d !! i = batch d !! j) /\
    (forall i j, (i < num_nodes d)%nat -> (j < num_nodes d)%nat -> i <> j ->
       batch d !! i = batch d !! j -> (dist xyz i j <= r)%R ->
       (i, j) ∈ E /\ (j, i) ∈ E).
Proof.
  intros Hd [_ Hlen] Hxyz r.
  destruct (index_columns_inr _ _ _ Hxyz) as [_ Hn].
  unfold num_nodes in *. rewrite <- Hn in *.
  eexists (output (Radial self) d xyz), _.
  split; [by apply (forward_returns (Radial self))|]. split; [done|].
  fold r.
  assert (forall i j, (i < length (rows xyz))%nat -> (j < length (rows xyz))%nat ->
            i <> j -> batch d !! i = batch d !! j -> (dist xyz i j <= r)%R ->
            (i, j) ∈ radius_graph xyz (batch d) r) as Hin.
  { intros i j Hi Hj Hne Heq Hdist.
    apply elem_of_radius_graph. split; [done|].
    apply elem_of_within. rewrite dist_sym. split; [done|].
    apply elem_of_candidates. done. }
  split.
  - intros i j (Hj & Hdist & Hc)%radius_graph_within.
    apply elem_of_candidates in Hc as (Hne & Heq & Hi).
    rewrite dist_sym. done.
  - intros i j Hi Hj Hne Heq Hdist. split; [by apply Hin|].
    apply Hin; [done|done|done|done|by rewrite dist_sym].
Qed.

Lemma radial_sound_and_complete_witness :
  exists d' E,
    returns (forward (Radial (RadialGraphBuilder.__init__ 1.5 None None)) 1%positive)
            (store_of scenario) d' /\ edge_index d' = Some E /\
    (forall i j, (i, j) ∈ E ->
       (i < 5)%nat /\ (j < 5)%nat /\
       (dist scenario_x i j <= 1.5)%R /\ i <> j /\
       batch scenario !! i = batch scenario !! j) /\
    (forall i j, (i < 5)%nat -> (j < 5)%nat -> i <> j ->
       batch scenario !! i = batch scenario !! j -> (dist scenario_x i j <= 1.5)%R ->
       (i, j) ∈ E /\ (j, i) ∈ E).
Proof.
  apply (radial_sound_and_complete
           (RadialGraphBuilder.__init__ 1.5 None None) 1%positive
           (store_of scenario) scenario scenario_x).
  - reflexivity.
  - concrete_wf.
  - reflexivity.
Defined.

(** ** The scenarios of the specification *)

Lemma sq_le_inv (a b : R) :
  (0 <= a)%R -> (0 <= b)%R -> (a ^ 2 <= b ^ 2)%R -> (a <= b)%R.
Proof. intros Ha Hb H. nra. Qed.

Lemma sq_lt_inv (a b : R) :
  (0 <= a)%R -> (0 <= b)%R -> (a ^ 2 < b ^ 2)%R -> ~ (b <= a)%R.
Proof. intros Ha Hb H. nra. Qed.

Lemma dist_nonneg pts i j : (0 <= dist pts i j)%R.
Proof. unfold dist, euclidean_distance. apply sqrt_pos. Qed.

Lemma scenario_dist_sq :
  (dist scenario_x 0 1 ^ 2 = 1 /\ dist scenario_x 0 2 ^ 2 = 1 /\
   dist scenario_x 1 0 ^ 2 = 1 /\ dist scenario_x 1 2 ^ 2 = 2 /\
   dist scenario_x 2 0 ^ 2 = 1 /\ dist scenario_x 2 1 ^ 2 = 2 /\
   dist scenario_x 3 4 ^ 2 = 1 /\ dist scenario_x 4 3 ^ 2 = 1)%R.
Proof.
  unfold dist. rewrite !euclidean_distance_sq.
  cbn [nth rows scenario_x zip_with tsum foldr]. repeat split; ring.
Qed.

(** Spec 8, first scenario: with [k = 1] every hit of the first event is
    joined from its nearest neighbour (hit 1 for hit 0, by the tie rule;
    hit 0 for hits 1 and 2), and the two hits of the second event are
    joined to each other. *)
Example scenario_knn_graph :
  knn_graph scenario_x (batch scenario) 1 =
  [(1, 0); (0, 1); (0, 2); (4, 3); (3, 4)]%nat.
Proof.
  destruct scenario_dist_sq as (H01 & H02 & H10 & H12 & H20 & H21 & H34 & H43).
  unfold knn_graph.
  cbn [rows scenario_x length seq flat_map].
  change (candidates scenario_x (batch scenario) 0) with [1; 2]%nat.
  change (candidates scenario_x (batch scenario) 1) with [0; 2]%nat.
  change (candidates scenario_x (batch scenario) 2) with [0; 1]%nat.
  change (candidates scenario_x (batch scenario) 3) with [4]%nat.
  change (candidates scenario_x (batch scenario) 4) with [3]%nat.
  cbn [sort_by foldr insert_by].
  rewrite !decide_True; [reflexivity|..];
    apply sq_le_inv; try apply dist_nonneg; lra.
Qed.

(** Spec 8, second scenario: with radius 1.5 the three hits of the first
    event are pairwise joined and the second event yields its one pair,
    in both orientations. *)
Example scenario_radius_graph :
  radius_graph scenario_x (batch scenario) 1.5 =
  [(1, 0); (2, 0); (0, 1); (2, 1); (0, 2); (1, 2); (4, 3); (3, 4)]%nat.
Proof.
  destruct scenario_dist_sq as (H01 & H02 & H10 & H12 & H20 & H21 & H34 & H43).
  unfold radius_graph, within.
  cbn [rows scenario_x length seq flat_map].
  change (candidates scenario_x (batch scenario) 0) with [1; 2]%nat.
  change (candidates scenario_x (batch scenario) 1) with [0; 2]%nat.
  change (candidates scenario_x (batch scenario) 2) with [0; 1]%nat.
  change (candidates scenario_x (batch scenario) 3) with [4]%nat.
  change (candidates scenario_x (batch scenario) 4) with [3]%nat.
  rewrite !filter_cons, !filter_nil.
  rewrite !decide_True; [reflexivity|..];
    apply sq_le_inv; try apply dist_nonneg; lra.
Qed.

Lemma line_dist_sq :
  (dist line_x 0 1 ^ 2 = 9 /\ dist line_x 0 2 ^ 2 = 1 /\
   dist line_x 1 0 ^ 2 = 9 /\ dist line_x 1 2 ^ 2 = 4 /\
   dist line_x 2 0 ^ 2 = 1 /\ dist line_x 2 1 ^ 2 = 4)%R.
Proof.
  unfold dist. rewrite !euclidean_distance_sq.
  cbn [nth rows line_x zip_with tsum foldr]. repeat split; ring.
Qed.

(** The nearest neighbour wins whatever its index: hit 2 is the nearest
    neighbour of hits 0 and 1. *)
Example line_knn_graph :
  knn_graph line_x [0; 0; 0]%Z 1 = [(2, 0); (2, 1); (0, 2)]%nat.
Proof.
  destruct line_dist_sq as (H01 & H02 & H10 & H12 & H20 & H21).
  unfold knn_graph.
  cbn [rows line_x length seq flat_map].
  change (candidates line_x [0; 0; 0]%Z 0) with [1; 2]%nat.
  change (candidates line_x [0; 0; 0]%Z 1) with [0; 2]%nat.
  change (candidates line_x [0; 0; 0]%Z 2) with [0; 1]%nat.
  cbn [sort_by foldr insert_by].
  rewrite (decide_False (P := (dist line_x 0 1 <= dist line_x 0 2)%R))
    by (apply sq_lt_inv; try apply dist_nonneg; lra).
  rewrite (decide_False (P := (dist line_x 1 0 <= dist line_x 1 2)%R))
    by (apply sq_lt_inv; try apply dist_nonneg; lra).
  rewrite (decide_True (P := (dist line_x 2 0 <= dist line_x 2 1)%R))
    by (apply sq_le_inv; try apply dist_nonneg; lra).
  reflexivity.
Qed.

(** * Further properties of the builders *)

(** ** Failure and repetition *)

(** X1. When a selected column is out of range the call raises
    [IndexError] and the store is as before; the overwrite message has
    been logged all the same when the object carried an [edge_index]. *)
Theorem forward_failure_is_atomic (b : GraphBuilder) (data : loc) (s : State)
    (d : Data) :
  heap s !! data = Some d ->
  ~ columns_in_range (x d) (columns b) ->
  exists s',
    forward b data s = (inl IndexError, s') /\
    heap s' = heap s /\
    logged s' =
      logged s ++ match edge_index d with
                  | Some _ => [(INFO, overwrite_message)]
                  | None => []
                  end.
Proof.
  intros Hd Hcols. exists (warned d s).
  split; [by apply forward_raise, index_columns_raise|].
  unfold warned. destruct (edge_index d); simpl; [done|].
  by rewrite app_nil_r.
Qed.

Lemma forward_failure_is_atomic_witness :
  exists s',
    forward (KNN (KNNGraphBuilder.mk 2 [0; 3]%Z None)) 1%positive
            (store_of scenario_with_edges) = (inl IndexError, s') /\
    heap s' = heap (store_of scenario_with_edges) /\
    logged s' = [] ++ [(INFO, overwrite_message)].
Proof.
  apply (forward_failure_is_atomic (KNN (KNNGraphBuilder.mk 2 [0; 3]%Z None))
           1%positive (store_of scenario_with_edges) scenario_with_edges).
  - reflexivity.
  - unfold columns_in_range. simpl. intros H.
    apply Forall_cons in H as [_ H]. apply Forall_cons in H as [H _]. lia.
Defined.

Lemma output_output b d xyz : output b (output b d xyz) xyz = output b d xyz.
Proof. by destruct b. Qed.

(** X2. Calling a builder a second time on the object it has just
    returned changes nothing in the store: the same adjacency (and
    weights) are written again, and the only trace is one more overwrite
    message in the log. *)
Theorem forward_twice (b : GraphBuilder) (data : loc) (s : State) (d : Data) :
  heap s !! data = Some d ->
  columns_in_range (x d) (columns b) ->
  exists s1,
    forward b data s = (inr data, s1) /\
    forward b data s1 =
      (inr data, mkState (heap s1) (logged s1 ++ [(INFO, overwrite_message)])).
Proof.
  intros Hd Hcols.
  destruct (index_columns_ok _ _ Hcols) as (xyz & Hxyz & _).
  eexists. split; [by apply forward_run|].
  rewrite (forward_run b data _ (output b d xyz) xyz).
  - cbn [heap logged]. rewrite insert_insert_eq, output_output.
    unfold warned at 1. by destruct b.
  - apply lookup_insert_eq.
  - by destruct b.
Qed.

Lemma forward_twice_witness :
  exists s1,
    forward (Euclidean (EuclideanGraphBuilder.__init__ 1 None None)) 1%positive
            (store_of scenario) = (inr 1%positive, s1) /\
    forward (Euclidean (EuclideanGraphBuilder.__init__ 1 None None)) 1%positive s1 =
      (inr 1%positive,
       mkState (heap s1) (logged s1 ++ [(INFO, overwrite_message)])).
Proof.
  apply (forward_twice (Euclidean (EuclideanGraphBuilder.__init__ 1 None None))
           1%positive (store_of scenario) scenario).
  - reflexivity.
  - concrete_columns.
Defined.

(** ** Defaults and degenerate inputs *)

(** X3. A builder constructed without [columns] selects the columns 0, 1
    and 2.  Applied to features with fewer than three columns it raises
    [IndexError] and leaves the store as it was; applied to a well-formed
    object with at least three feature columns it does not raise
    [IndexError]. *)
Theorem default_columns_need_three_features (b : GraphBuilder) (data : loc)
    (s : State) (d : Data) :
  (exists k device, b = KNN (KNNGraphBuilder.__init__ k None device)) \/
  (exists r device, b = Radial (RadialGraphBuilder.__init__ r None device)) \/
  (exists sigma threshold,
     b = Euclidean (EuclideanGraphBuilder.__init__ sigma threshold None)) ->
  heap s !! data = Some d ->
  (columns b = [0; 1; 2]%Z) /\
  ((shape1 (x d) < 3)%nat ->
     exists s', forward b data s = (inl IndexError, s') /\ heap s' = heap s) /\
  (wf_data d -> (3 <= shape1 (x d))%nat ->
     forall s', forward b data s <> (inl IndexError, s')).
Proof.
  intros Hb Hd.
  assert (columns b = [0; 1; 2]%Z) as Hc.
  { destruct Hb as [(k & dev & ->)|[(r & dev & ->)|(sg & th & ->)]]; reflexivity. }
  split; [done|]. split.
  - intros Hlt. exists (warned d s). split.
    + apply forward_raise; [done|]. apply index_columns_raise. rewrite Hc.
      unfold columns_in_range. intros H.
      apply Forall_cons in H as [_ H]. apply Forall_cons in H as [_ H].
      apply Forall_cons in H as [H _]. lia.
    + unfold warned. by destruct (edge_index d).
  - intros _ Hge s' H.
    destruct (index_columns_ok (x d) (columns b)) as (xyz & Hxyz & _).
    { rewrite Hc. unfold columns_in_range. repeat constructor; lia. }
    rewrite (forward_run b data s d xyz Hd Hxyz) in H. discriminate H.
Qed.

Lemma default_columns_need_three_features_witness :
  exists s',
    forward (Radial (RadialGraphBuilder.__init__ 1 None None)) 1%positive
            (store_of (mkData (mkTensor2 2 [[0; 0]; [1; 0]]%R) [0; 0]%Z None None ∅)) =
      (inl IndexError, s') /\
    heap s' = heap (store_of (mkData (mkTensor2 2 [[0; 0]; [1; 0]]%R) [0; 0]%Z
                                None None ∅)).
Proof.
  destruct (default_columns_need_three_features
              (Radial (RadialGraphBuilder.__init__ 1 None None)) 1%positive
              (store_of (mkData (mkTensor2 2 [[0; 0]; [1; 0]]%R) [0; 0]%Z None None ∅))
              (mkData (mkTensor2 2 [[0; 0]; [1; 0]]%R) [0; 0]%Z None None ∅))
    as (_ & Hraise & _).
  - right. left. exists 1%R, None. reflexivity.
  - reflexivity.
  - apply Hraise. simpl. lia.
Defined.

(** X4. On an object without nodes every builder returns an empty edge
    list, and the affinity builder an empty weight list with it. *)
Theorem forward_on_no_nodes (b : GraphBuilder) (data : loc) (s : State)
    (d : Data) :
  heap s !! data = Some d ->
  wf_data d ->
  num_nodes d = 0%nat ->
  columns_in_range (x d) (columns b) ->
  exists d',
    returns (forward b data) s d' /\ edge_index d' = Some [] /\
    match b with
    | Euclidean _ => edge_weight d' = Some []
    | _ => edge_weight d' = edge_weight d
    end.
Proof.
  intros Hd [_ Hlen] Hn Hcols.
  destruct (index_columns_ok _ _ Hcols) as (xyz & Hxyz & Hrows).
  unfold num_nodes in *. rewrite Hn in *.
  apply nil_length_inv in Hrows. apply nil_length_inv in Hlen.
  exists (output b d xyz). split; [by apply forward_returns|].
  destruct b as [self|self|self]; simpl.
  - unfold knn_graph. rewrite Hrows. done.
  - unfold radius_graph. rewrite Hrows. done.
  - unfold calculate_distance_matrix. rewrite Hrows, Hlen. done.
Qed.

Lemma forward_on_no_nodes_witness :
  exists d',
    returns (forward (Euclidean (EuclideanGraphBuilder.__init__ 1 None None))
               1%positive)
            (store_of (mkData (mkTensor2 3 []) [] None None ∅)) d' /\
    edge_index d' = Some [] /\ edge_weight d' = Some [].
Proof.
  apply (forward_on_no_nodes (Euclidean (EuclideanGraphBuilder.__init__ 1 None None))
           1%positive (store_of (mkData (mkTensor2 3 []) [] None None ∅))
           (mkData (mkTensor2 3 []) [] None None ∅)).
  - reflexivity.
  - concrete_wf.
  - reflexivity.
  - concrete_columns.
Defined.

(** ** One builder after another *)

(** X5. The k-nearest and the radial builder never write [edge_weight]:
    run on the object an affinity builder has returned, they replace its
    [edge_index] and leave the affinity weights in place, now attached to
    an edge list they were not computed for. *)
Theorem weights_survive_a_later_builder (e : EuclideanGraphBuilder.t)
    (b : GraphBuilder) (data : loc) (s : State) (d : Data) :
  (forall e', b <> Euclidean e') ->
  heap s !! data = Some d ->
  columns_in_range (x d) (EuclideanGraphBuilder._columns e) ->
  columns_in_range (x d) (columns b) ->
  exists s1 d1 s2 d2 d0,
    forward (Euclidean e) data s = (inr data, s1) /\ heap s1 !! data = Some d1 /\
    forward b data s1 = (inr data, s2) /\ heap s2 !! data = Some d2 /\
    returns (forward b data) s d0 /\
    edge_weight d2 = edge_weight d1 /\ is_Some (edge_weight d2) /\
    edge_index d2 = edge_index d0.
Proof.
  intros Hb Hd He Hcols.
  destruct (index_columns_ok _ _ He) as (xyz & Hxyz & _).
  destruct (index_columns_ok _ _ Hcols) as (xyz' & Hxyz' & _).
  eexists _, (output (Euclidean e) d xyz), _,
    (output b (output (Euclidean e) d xyz) xyz'), (output b d xyz').
  split; [by apply (forward_run (Euclidean e))|].
  split; [apply lookup_insert_eq|].
  split; [apply forward_run; [apply lookup_insert_eq|done]|].
  split; [apply lookup_insert_eq|].
  split; [by apply forward_returns|].
  destruct b as [k|r|e']; [| |by destruct (Hb e')]; simpl; eauto.
Qed.

Lemma weights_survive_a_later_builder_witness :
  exists s1 d1 s2 d2 d0,
    forward (Euclidean (EuclideanGraphBuilder.__init__ 1 None None)) 1%positive
            (store_of scenario) = (inr 1%positive, s1) /\
    heap s1 !! 1%positive = Some d1 /\
    forward (KNN (KNNGraphBuilder.__init__ 1 None None)) 1%positive s1 =
      (inr 1%positive, s2) /\
    heap s2 !! 1%positive = Some d2 /\
    returns (forward (KNN (KNNGraphBuilder.__init__ 1 None None)) 1%positive)
            (store_of scenario) d0 /\
    edge_weight d2 = edge_weight d1 /\ is_Some (edge_weight d2) /\
    edge_index d2 = edge_index d0.
Proof.
  apply (weights_survive_a_later_builder
           (EuclideanGraphBuilder.__init__ 1 None None)
           (KNN (KNNGraphBuilder.__init__ 1 None None))
           1%positive (store_of scenario) scenario).
  - intros e' H. discriminate H.
  - reflexivity.
  - concrete_columns.
  - concrete_columns.
Defined.

(** ** The edge list of the affinity builder *)

Lemma StronglySorted_sublist {A} (R : relation A) (l1 l2 : list A) :
  l1 `sublist_of` l2 -> StronglySorted R l2 -> StronglySorted R l1.
Proof.
  induction 1 as [|a l1 l2 Hsub IH|a l1 l2 Hsub IH]; intros Hs.
  - constructor.
  - apply StronglySorted_inv in Hs as [Hs Ha]. constructor; [by apply IH|].
    apply Forall_forall. intros b Hb. rewrite Forall_forall in Ha.
    apply Ha. by eapply elem_of_sublist.
  - apply StronglySorted_inv in Hs as [Hs _]. by apply IH.
Qed.

Lemma seq_sorted a n : StronglySorted lt (seq a n).
Proof.
  revert a. induction n as [|n IH]; intros a; simpl; constructor; [apply IH|].
  apply Forall_forall. intros b Hb%elem_of_seq. lia.
Qed.

Lemma where_row_major c : StronglySorted row_major (where_ c).
Proof.
  unfold where_. generalize 0%nat at 1 as a. generalize (length c) as n.
  induction n as [|n IH]; intros a; simpl; [constructor|].
  apply StronglySorted_app_2.
  - intros e1 e2 (j1 & -> & _)%elem_of_map
      (i & Hi%elem_of_seq & (j2 & -> & _)%elem_of_map)%elem_of_flat_map.
    left. simpl. lia.
  - apply (StronglySorted_fmap _ lt).
    + intros j1 j2 Hlt. right. simpl. done.
    + eapply StronglySorted_sublist; [apply sublist_filter|apply seq_sorted].
  - apply IH.
Qed.

Lemma row_major_NoDup (l : list (nat * nat)) :
  StronglySorted row_major l -> NoDup l.
Proof.
  induction 1 as [|e l _ IH He]; constructor; [|done].
  intros Hin. rewrite Forall_forall in He. specialize (He e Hin).
  unfold row_major in He. lia.
Qed.

(** X6. The affinity builder stores its edges in row-major order, strictly
    increasing by (source, target); so no edge is stored twice. *)
Theorem affinity_edges_row_major (self : EuclideanGraphBuilder.t) (data : loc)
    (s : State) (d : Data) :
  heap s !! data = Some d ->
  columns_in_range (x d) (EuclideanGraphBuilder._columns self) ->
  exists d' E,
    returns (forward (Euclidean self) data) s d' /\ edge_index d' = Some E /\
    StronglySorted row_major E /\ NoDup E.
Proof.
  intros Hd Hcols.
  destruct (index_columns_ok _ _ Hcols) as (xyz & Hxyz & _).
  eexists (output (Euclidean self) d xyz), _.
  split; [by apply (forward_returns (Euclidean self))|]. split; [done|].
  assert (StronglySorted row_major
            (EuclideanGraphBuilder.sources_targets self
               (EuclideanGraphBuilder.weighted_adj_matrix
                  (EuclideanGraphBuilder.affinity_matrix self
                     (calculate_distance_matrix xyz)))
               (outer_eq (batch d)))) as Hs by apply where_row_major.
  split; [done|by apply row_major_NoDup].
Qed.

Lemma affinity_edges_row_major_witness :
  exists d' E,
    returns (forward (Euclidean (EuclideanGraphBuilder.__init__ 1 None None))
               1%positive) (store_of scenario) d' /\
    edge_index d' = Some E /\ StronglySorted row_major E /\ NoDup E.
Proof.
  apply (affinity_edges_row_major (EuclideanGraphBuilder.__init__ 1 None None)
           1%positive (store_of scenario) scenario).
  - reflexivity.
  - concrete_columns.
Defined.

(** ** The threshold *)

Lemma filter_sublist_impl {A} (P Q : A -> Prop) `{!forall a, Decision (P a)}
    `{!forall a, Decision (Q a)} (l : list A) :
  (forall a, P a -> Q a) -> filter P l `sublist_of` filter Q l.
Proof.
  intros HPQ. induction l as [|a l IH]; [done|].
  rewrite !filter_cons. destruct (decide (P a)) as [HP|HP].
  - rewrite decide_True by auto. by constructor.
  - destruct (decide (Q a)); [by constructor|done].
Qed.

Lemma flat_map_sublist {A B} (f g : A -> list B) (l : list A) :
  (forall a, f a `sublist_of` g a) -> flat_map f l `sublist_of` flat_map g l.
Proof.
  intros Hfg. induction l as [|a l IH]; simpl; [done|]. by apply sublist_app.
Qed.

Lemma where_sublist (c1 c2 : list (list bool)) :
  length c1 = length c2 ->
  (forall i, length (nth i c1 []) = length (nth i c2 [])) ->
  (forall i j, nth j (nth i c1 []) false = true ->
               nth j (nth i c2 []) false = true) ->
  where_ c1 `sublist_of` where_ c2.
Proof.
  intros Hlen Hrows Himp. unfold where_. rewrite Hlen.
  apply flat_map_sublist. intros i.
  apply (fmap_sublist (pair i)). unfold true_indices. rewrite Hrows.
  apply filter_sublist_impl, Himp.
Qed.

Lemma length_thresholded_row (f : R -> bool) (W : list (list R))
    (mask : list (list bool)) i :
  length (nth i (mzip_with andb (mmap f W) mask) []) =
  (length (nth i W []) `min` length (nth i mask []))%nat.
Proof.
  unfold mzip_with, mmap. rewrite !nth_lookup, lookup_zip_with, lookup_map.
  destruct (W !! i) as [r|]; simpl; [|done].
  destruct (mask !! i) as [m|]; simpl.
  - by rewrite length_zip_with, length_map.
  - lia.
Qed.

Lemma sources_targets_antitone (e1 e2 : EuclideanGraphBuilder.t) W mask :
  (EuclideanGraphBuilder._threshold e1 <= EuclideanGraphBuilder._threshold e2)%R ->
  EuclideanGraphBuilder.sources_targets e2 W mask `sublist_of`
  EuclideanGraphBuilder.sources_targets e1 W mask.
Proof.
  intros Ht. unfold EuclideanGraphBuilder.sources_targets. apply where_sublist.
  - unfold mzip_with, mmap. by rewrite !length_zip_with, !length_map.
  - intros i. by rewrite !length_thresholded_row.
  - intros i j. rewrite !nth_nth_mlookup, !mlookup_mzip_with, !mlookup_mmap.
    destruct (mlookup W i j) as [w|]; simpl; [|done].
    destruct (mlookup mask i j) as [[]|]; simpl; [|by rewrite !andb_false_r|done].
    rewrite !andb_true_r. intros H%bool_decide_eq_true.
    apply bool_decide_eq_true. lra.
Qed.

(** X7. Raising the threshold of the affinity builder only removes
    edges: with the other parameters fixed, the edge list for the larger
    threshold is a sublist of the one for the smaller threshold, and so is
    the weight list. *)
Theorem affinity_threshold_antitone (sigma t1 t2 : R) (cols : list Z)
    (data : loc) (s : State) (d : Data) :
  heap s !! data = Some d ->
  columns_in_range (x d) cols ->
  (t1 <= t2)%R ->
  exists d1 d2 E1 E2 w1 w2,
    returns (forward (Euclidean (EuclideanGraphBuilder.mk sigma t1 cols)) data) s d1 /\
    returns (forward (Euclidean (EuclideanGraphBuilder.mk sigma t2 cols)) data) s d2 /\
    edge_index d1 = Some E1 /\ edge_index d2 = Some E2 /\
    edge_weight d1 = Some w1 /\ edge_weight d2 = Some w2 /\
    E2 `sublist_of` E1 /\ w2 `sublist_of` w1 /\
    (length E2 <= length E1)%nat.
Proof.
  intros Hd Hcols Ht.
  destruct (index_columns_ok _ _ Hcols) as (xyz & Hxyz & _).
  eexists (output (Euclidean (EuclideanGraphBuilder.mk sigma t1 cols)) d xyz),
    (output (Euclidean (EuclideanGraphBuilder.mk sigma t2 cols)) d xyz), _, _, _, _.
  split; [by apply (forward_returns (Euclidean _))|].
  split; [by apply (forward_returns (Euclidean _))|].
  do 4 (split; [reflexivity|]).
  set (W := EuclideanGraphBuilder.weighted_adj_matrix _).
  assert (EuclideanGraphBuilder.sources_targets
            (EuclideanGraphBuilder.mk sigma t2 cols) W (outer_eq (batch d))
          `sublist_of`
          EuclideanGraphBuilder.sources_targets
            (EuclideanGraphBuilder.mk sigma t1 cols) W (outer_eq (batch d))) as Hsub
    by (by apply sources_targets_antitone).
  split; [exact Hsub|]. split.
  - unfold gather. by apply (fmap_sublist _).
  - by apply sublist_length.
Qed.

Lemma affinity_threshold_antitone_witness :
  exists d1 d2 E1 E2 w1 w2,
    returns (forward (Euclidean (EuclideanGraphBuilder.mk 1 0 default_columns))
               1%positive) (store_of scenario) d1 /\
    returns (forward (Euclidean (EuclideanGraphBuilder.mk 1 0.3 default_columns))
               1%positive) (store_of scenario) d2 /\
    edge_index d1 = Some E1 /\ edge_index d2 = Some E2 /\
    edge_weight d1 = Some w1 /\ edge_weight d2 = Some w2 /\
    E2 `sublist_of` E1 /\ w2 `sublist_of` w1 /\
    (length E2 <= length E1)%nat.
Proof.
  apply (affinity_threshold_antitone 1 0 0.3 default_columns 1%positive
           (store_of scenario) scenario).
  - reflexivity.
  - concrete_columns.
  - lra.
Defined.

(** X8. Since no weight exceeds 1, a threshold of 1 or more leaves the
    affinity builder with no edge and no weight at all. *)
Theorem affinity_threshold_at_least_1 (self : EuclideanGraphBuilder.t)
    (data : loc) (s : State) (d : Data) :
  heap s !! data = Some d ->
  columns_in_range (x d) (EuclideanGraphBuilder._columns self) ->
  (1 <= EuclideanGraphBuilder._threshold self)%R ->
  exists d',
    returns (forward (Euclidean self) data) s d' /\
    edge_index d' = Some [] /\ edge_weight d' = Some [].
Proof.
  intros Hd Hcols Ht.
  destruct (index_columns_ok _ _ Hcols) as (xyz & Hxyz & _).
  exists (output (Euclidean self) d xyz).
  split; [by apply (forward_returns (Euclidean self))|]. simpl.
  set (W := EuclideanGraphBuilder.weighted_adj_matrix _).
  assert (EuclideanGraphBuilder.sources_targets self W (outer_eq (batch d)) = [])
    as ->; [|done].
  apply elem_of_nil_inv. intros [i j] (w & Hw & Hlt & _)%elem_of_sources_targets.
  apply weighted_entry_bounds in Hw. lra.
Qed.

Lemma affinity_threshold_at_least_1_witness :
  exists d',
    returns (forward (Euclidean (EuclideanGraphBuilder.mk 1 1 default_columns))
               1%positive) (store_of scenario) d' /\
    edge_index d' = Some [] /\ edge_weight d' = Some [].
Proof.
  apply (affinity_threshold_at_least_1
           (EuclideanGraphBuilder.mk 1 1 default_columns)
           1%positive (store_of scenario) scenario).
  - reflexivity.
  - concrete_columns.
  - simpl. lra.
Defined.

(** ** Row normalisation *)

Lemma tsum_map_div (l : list R) (s : R) :
  tsum (map (fun v => v / s)%R l) = (tsum l / s)%R.
Proof.
  induction l as [|v l IH]; cbn [map tsum foldr].
  - unfold Rdiv. ring.
  - unfold tsum in IH. rewrite IH. unfold Rdiv. ring.
Qed.

Lemma weighted_row_sum A i row :
  A !! i = Some row -> row <> [] ->
  tsum (nth i (EuclideanGraphBuilder.weighted_adj_matrix A) []) = 1%R.
Proof.
  intros Hi Hrow. rewrite weighted_adj_matrix_rows, nth_lookup, lookup_map, Hi.
  simpl. rewrite <- (map_map exp (fun v => v / tsum (map exp row))%R).
  rewrite tsum_map_div.
  assert (0 < tsum (map exp row))%R as Hpos.
  { destruct row as [|a row]; [done|].
    pose proof (tsum_ge_elem (map exp (a :: row)) (exp a)
                  (exp_row_positive _)) as H.
    pose proof (exp_pos a). simpl in H. simpl.
    assert (exp a ∈ exp a :: map exp row) as Hin by left.
    specialize (H Hin). lra. }
  field. lra.
Qed.

Lemma tsum_sublist (l1 l2 : list R) :
  l1 `sublist_of` l2 -> Forall (fun v => 0 <= v)%R l2 -> (tsum l1 <= tsum l2)%R.
Proof.
  unfold tsum.
  induction 1 as [|v l1 l2 _ IH|v l1 l2 _ IH]; intros Hl2; cbn [foldr].
  - lra.
  - apply Forall_cons in Hl2 as [_ Hl2]. specialize (IH Hl2). lra.
  - apply Forall_cons in Hl2 as [Hv Hl2]. specialize (IH Hl2).
    simpl in Hv. lra.
Qed.

Lemma zip_map_self {A B} (g : A -> B) (l : list A) :
  zip l (map g l) = map (fun a => (a, g a)) l.
Proof. induction l as [|a l IH]; simpl; [done|]. by rewrite IH. Qed.

Lemma filter_source_map_pair {B} (g : nat * nat -> B) (i : nat)
    (l : list (nat * nat)) :
  filter (fun p => fst (fst p) = i) (map (fun e => (e, g e)) l) =
  map (fun e => (e, g e)) (filter (fun e => fst e = i) l).
Proof.
  induction l as [|e l IH]; [done|]. cbn [map]. rewrite !filter_cons. simpl.
  destruct (decide (fst e = i)); simpl; by rewrite IH.
Qed.

Lemma weights_from_gather W E i :
  weights_from E (gather W E) i =
  map (fun e => entry W (fst e) (snd e)) (filter (fun e => fst e = i) E).
Proof.
  unfold weights_from, gather.
  change (map (fun p => nth (snd p) (nth (fst p) W []) 0%R) E)
    with (map (fun e => entry W (fst e) (snd e)) E).
  rewrite zip_map_self.
  rewrite filter_source_map_pair.
  by rewrite map_map.
Qed.

(** The edges out of [i] in a list built source by source. *)
Lemma outgoing_flat_map (h : nat -> list nat) (l : list nat) (i : nat) :
  NoDup l ->
  filter (fun e => fst e = i) (flat_map (fun i' => map (pair i') (h i')) l) =
  if decide (i ∈ l) then map (pair i) (h i) else [].
Proof.
  induction 1 as [|a l Ha Hl IH]; [done|].
  simpl. rewrite filter_app, IH.
  destruct (decide (a = i)) as [->|Hne].
  - rewrite (decide_True (P := i ∈ i :: l)) by left.
    rewrite (decide_False (P := i ∈ l)) by done.
    rewrite app_nil_r. apply filter_all, Forall_forall.
    by intros e (j & -> & _)%elem_of_map.
  - rewrite filter_none.
    + simpl. destruct (decide (i ∈ l)) as [Hin|Hnin].
      * rewrite (decide_True (P := i ∈ a :: l)) by (by right). done.
      * rewrite (decide_False (P := i ∈ a :: l)); [done|].
        by intros [->|?]%elem_of_cons.
    + apply Forall_forall. intros e (j & -> & _)%elem_of_map. done.
Qed.

Lemma seq_prefix_sublist (a b : nat) : (a <= b)%nat -> seq 0 a `sublist_of` seq 0 b.
Proof.
  intros Hab. replace b with (a + (b - a))%nat by lia. rewrite seq_app.
  apply sublist_inserts_r. done.
Qed.

Lemma weighted_row_nonneg A i :
  Forall (fun v => 0 <= v)%R (nth i (EuclideanGraphBuilder.weighted_adj_matrix A) []).
Proof.
  apply Forall_forall. intros v Hv.
  apply list_elem_of_lookup in Hv as [j Hj].
  assert (mlookup (EuclideanGraphBuilder.weighted_adj_matrix A) i j = Some v) as Hm.
  { unfold mlookup. rewrite nth_lookup in Hj.
    destruct (_ !! i); simpl in *; [done|]. by rewrite lookup_nil in Hj. }
  apply weighted_entry_bounds in Hm. lra.
Qed.

Lemma row_as_entries (W : list (list R)) i :
  nth i W [] = map (entry W i) (seq 0 (length (nth i W []))).
Proof.
  rewrite <- (map_id (nth i W [])) at 1. apply (map_nth_seq' (fun v => v)).
Qed.

Lemma outgoing_weight_le_row self A mask i :
  (tsum (weights_from
           (EuclideanGraphBuilder.sources_targets self
              (EuclideanGraphBuilder.weighted_adj_matrix A) mask)
           (gather (EuclideanGraphBuilder.weighted_adj_matrix A)
              (EuclideanGraphBuilder.sources_targets self
                 (EuclideanGraphBuilder.weighted_adj_matrix A) mask)) i)
   <= tsum (nth i (EuclideanGraphBuilder.weighted_adj_matrix A) []))%R.
Proof.
  set (W := EuclideanGraphBuilder.weighted_adj_matrix A).
  rewrite weights_from_gather.
  unfold EuclideanGraphBuilder.sources_targets, where_.
  rewrite (outgoing_flat_map (fun i' => true_indices (nth i' _ []))) by apply NoDup_seq.
  pose proof (weighted_row_nonneg A i) as Hnn. fold W in Hnn.
  case_decide; [|by apply (tsum_sublist []); [apply sublist_nil_l|]].
  rewrite map_map. cbn [fst snd].
  assert (tsum (nth i W []) =
          tsum (map (entry W i) (seq 0 (length (nth i W []))))) as ->
    by (f_equal; apply row_as_entries).
  apply tsum_sublist.
  - apply (fmap_sublist (entry W i)). unfold true_indices.
    etrans; [apply sublist_filter|]. apply seq_prefix_sublist.
    rewrite length_thresholded_row. lia.
  - apply Forall_forall. intros v (k & -> & Hk%elem_of_seq)%elem_of_map.
    rewrite Forall_forall in Hnn. apply Hnn. unfold entry.
    rewrite nth_lookup.
    destruct (nth i W [] !! k) eqn:E; simpl.
    + by eapply list_elem_of_lookup_2.
    + apply lookup_ge_None in E. lia.
Qed.

(** X9. The weight matrix of the affinity builder is normalised by rows:
    for every node the weights towards all nodes add up to 1.  The stored
    weights are those of the edges kept, so for every node the weights of
    the edges that leave it add up to at most 1. *)
Theorem affinity_rows_sum_to_1 (self : EuclideanGraphBuilder.t) (data : loc)
    (s : State) (d : Data) (xyz : Tensor2) :
  heap s !! data = Some d ->
  wf_data d ->
  index_columns (x d) (EuclideanGraphBuilder._columns self) = inr xyz ->
  EuclideanGraphBuilder._sigma self <> 0%R ->
  (forall i, (i < num_nodes d)%nat ->
     tsum (nth i (EuclideanGraphBuilder.weighted_adj_matrix
                    (EuclideanGraphBuilder.affinity_matrix self
                       (calculate_distance_matrix xyz))) []) = 1%R) /\
  exists d' E w,
    returns (forward (Euclidean self) data) s d' /\
    edge_index d' = Some E /\ edge_weight d' = Some w /\
    forall i, (tsum (weights_from E w i) <= 1)%R.
Proof.
  intros Hd _ Hxyz _.
  destruct (index_columns_inr _ _ _ Hxyz) as [_ Hn].
  set (A := EuclideanGraphBuilder.affinity_matrix self (calculate_distance_matrix xyz)).
  assert (forall i, (i < num_nodes d)%nat ->
            tsum (nth i (EuclideanGraphBuilder.weighted_adj_matrix A) []) = 1%R)
    as Hrow.
  { intros i Hi. unfold num_nodes in Hi. rewrite <- Hn in Hi.
    eapply weighted_row_sum; [by apply affinity_row|].
    intros Hnil%(f_equal length). rewrite length_map, length_seq in Hnil.
    simpl in Hnil. lia. }
  split; [exact Hrow|].
  eexists (output (Euclidean self) d xyz), _, _.
  split; [by apply (forward_returns (Euclidean self))|].
  split; [reflexivity|]. split; [reflexivity|].
  intros i. etrans; [apply outgoing_weight_le_row|]. fold A.
  destruct (decide (i < num_nodes d)%nat) as [Hi|Hi].
  - rewrite Hrow by done. lra.
  - rewrite nth_overflow; [simpl; lra|].
    rewrite weighted_adj_matrix_rows, length_map. subst A.
    unfold EuclideanGraphBuilder.affinity_matrix, mmap, calculate_distance_matrix.
    rewrite !length_map. unfold num_nodes in Hi. lia.
Qed.

Lemma affinity_rows_sum_to_1_witness :
  exists d' E w,
    returns (forward (Euclidean (EuclideanGraphBuilder.__init__ 1 (Some 0.3%R) None))
               1%positive) (store_of scenario) d' /\
    edge_index d' = Some E /\ edge_weight d' = Some w /\
    forall i, (tsum (weights_from E w i) <= 1)%R.
Proof.
  destruct (affinity_rows_sum_to_1
              (EuclideanGraphBuilder.__init__ 1 (Some 0.3%R) None)
              1%positive (store_of scenario) scenario scenario_x)
    as (_ & H).
  - reflexivity.
  - concrete_wf.
  - reflexivity.
  - simpl. lra.
  - exact H.
Defined.

(** ** The self-loop is the heaviest edge of its node *)

Lemma dist_diag pts i : dist pts i i = 0%R.
Proof. apply euclidean_distance_diag. Qed.

Lemma A_spec_diag sigma pts i : A_spec sigma pts i i = 1%R.
Proof.
  unfold A_spec. rewrite dist_diag.
  replace (-0.5 * 0 ^ 2 / sigma ^ 2)%R with 0%R by (unfold Rdiv; ring).
  apply exp_0.
Qed.

Lemma A_spec_le_1 sigma pts i j : sigma <> 0%R -> (A_spec sigma pts i j <= 1)%R.
Proof.
  intros Hs. unfold A_spec. rewrite <- exp_0.
  assert (-0.5 * dist pts i j ^ 2 / sigma ^ 2 <= 0)%R as Hle.
  { pose proof (pow2_ge_0 (dist pts i j)) as Hd.
    assert (0 < sigma ^ 2)%R as Hs2 by (destruct (Rdichotomy _ _ Hs); nra).
    pose proof (Rinv_0_lt_compat _ Hs2) as Hinv.
    unfold Rdiv. nra. }
  destruct Hle as [Hlt| ->]; [left; by apply exp_increasing|lra].
Qed.

Lemma W_spec_le_diag sigma pts i j :
  sigma <> 0%R -> (W_spec sigma pts i j <= W_spec sigma pts i i)%R.
Proof.
  intros Hs. unfold W_spec.
  set (S := tsum _).
  assert (0 <= S)%R as HS.
  { subst S. apply (tsum_sublist []); [apply sublist_nil_l|].
    apply Forall_forall. intros v (k & -> & _)%elem_of_map.
    left. apply exp_pos. }
  assert (0 <= / S)%R as Hinv.
  { destruct HS as [HS| <-]; [left; by apply Rinv_0_lt_compat|].
    rewrite Rinv_0. lra. }
  assert (exp (A_spec sigma pts i j) <= exp (A_spec sigma pts i i))%R as Hnum.
  { rewrite A_spec_diag. apply exp_le_exp_1, A_spec_le_1, Hs. }
  unfold Rdiv. nra.
Qed.

(** X10. In every row of the weight matrix the diagonal entry is the
    largest, so the affinity builder keeps an edge out of a node only if
    it keeps the self-loop of that node. *)
Theorem affinity_self_loop_is_heaviest (self : EuclideanGraphBuilder.t)
    (data : loc) (s : State) (d : Data) (xyz : Tensor2) :
  heap s !! data = Some d ->
  wf_data d ->
  index_columns (x d) (EuclideanGraphBuilder._columns self) = inr xyz ->
  EuclideanGraphBuilder._sigma self <> 0%R ->
  let sigma := EuclideanGraphBuilder._sigma self in
  (forall i j, (W_spec sigma xyz i j <= W_spec sigma xyz i i)%R) /\
  exists d' E,
    returns (forward (Euclidean self) data) s d' /\ edge_index d' = Some E /\
    forall i j, (i, j) ∈ E -> (i, i) ∈ E.
Proof.
  intros Hd [_ Hlen] Hxyz Hs sigma.
  destruct (index_columns_inr _ _ _ Hxyz) as [_ Hn].
  split; [intros i j; by apply W_spec_le_diag|].
  eexists (output (Euclidean self) d xyz), _.
  split; [by apply (forward_returns (Euclidean self))|]. split; [reflexivity|].
  intros i j (w & Hw & Ht & Hm)%elem_of_sources_targets.
  destruct (weighted_adj_matrix_shape _ _ _ _ _ Hw) as [Hi Hj].
  rewrite weighted_adj_matrix_entry in Hw by done. injection Hw as <-.
  apply elem_of_sources_targets. exists (W_spec sigma xyz i i).
  split; [by apply weighted_adj_matrix_entry|]. split.
  - pose proof (W_spec_le_diag sigma xyz i j Hs). fold sigma in Ht. lra.
  - apply mask_diagonal. rewrite Hlen. unfold num_nodes. by rewrite <- Hn.
Qed.

Lemma affinity_self_loop_is_heaviest_witness :
  (forall i j, (W_spec 1 scenario_x i j <= W_spec 1 scenario_x i i)%R) /\
  exists d' E,
    returns (forward (Euclidean (EuclideanGraphBuilder.__init__ 1 (Some 0.3%R) None))
               1%positive) (store_of scenario) d' /\
    edge_index d' = Some E /\
    forall i j, (i, j) ∈ E -> (i, i) ∈ E.
Proof.
  apply (affinity_self_loop_is_heaviest
           (EuclideanGraphBuilder.__init__ 1 (Some 0.3%R) None)
           1%positive (store_of scenario) scenario scenario_x).
  - reflexivity.
  - concrete_wf.
  - reflexivity.
  - simpl. lra.
Defined.

(** ** Only the selected columns matter *)

Lemma index_columns_agree cols t1 t2 :
  agree_on cols t1 t2 -> index_columns t1 cols = index_columns t2 cols.
Proof.
  intros (Hshape & Hlen & Hval). unfold index_columns. rewrite <- Hshape.
  destruct (mapM (wrap_index (shape1 t1)) cols) as [js|] eqn:Hjs; [|done].
  f_equal. f_equal. apply list_eq. intros i. rewrite !lookup_map.
  destruct (rows t1 !! i) as [r1|] eqn:E1; destruct (rows t2 !! i) as [r2|] eqn:E2;
    simpl.
  - f_equal. apply mapM_Some_1 in Hjs. apply map_ext_in.
    intros j Hj%list_elem_of_In. apply list_elem_of_lookup in Hj as [k Hk].
    destruct (Forall2_lookup_r _ _ _ _ _ Hjs Hk) as (c & Hc & Hw).
    apply list_elem_of_lookup_2 in Hc.
    pose proof (Hval i c j Hc Hw) as Hv.
    by rewrite (nth_lookup_Some _ _ _ _ E1), (nth_lookup_Some _ _ _ _ E2) in Hv.
  - apply lookup_lt_Some in E1. apply lookup_ge_None in E2. lia.
  - apply lookup_lt_Some in E2. apply lookup_ge_None in E1. lia.
  - done.
Qed.

(** X11. A builder reads the features through the selected columns only:
    on two objects with the same batch assignment whose features agree in
    those columns it stores the same edge list (and the same weights). *)
Theorem only_selected_columns_matter (b : GraphBuilder) (l1 l2 : loc)
    (s1 s2 : State) (d1 d2 : Data) :
  heap s1 !! l1 = Some d1 ->
  heap s2 !! l2 = Some d2 ->
  batch d1 = batch d2 ->
  agree_on (columns b) (x d1) (x d2) ->
  columns_in_range (x d1) (columns b) ->
  exists d1' d2',
    returns (forward b l1) s1 d1' /\ returns (forward b l2) s2 d2' /\
    edge_index d1' = edge_index d2' /\
    match b with
    | Euclidean _ => edge_weight d1' = edge_weight d2'
    | _ => True
    end.
Proof.
  intros H1 H2 Hbatch Hagree Hcols.
  destruct (index_columns_ok _ _ Hcols) as (xyz & Hxyz & _).
  pose proof Hxyz as Hxyz2. rewrite (index_columns_agree _ _ _ Hagree) in Hxyz2.
  exists (output b d1 xyz), (output b d2 xyz).
  split; [by apply forward_returns|]. split; [by apply forward_returns|].
  destruct b; simpl; rewrite Hbatch; done.
Qed.

Lemma only_selected_columns_matter_witness :
  exists d1' d2',
    returns (forward (KNN (KNNGraphBuilder.mk 1 [0; 1]%Z None)) 1%positive)
            (store_of scenario) d1' /\
    returns (forward (KNN (KNNGraphBuilder.mk 1 [0; 1]%Z None)) 1%positive)
            (store_of (mkData (mkTensor2 3
               [[0; 0; 7]; [1; 0; 7]; [0; 1; 7]; [5; 5; 7]; [5; 5; 7]]%R)
               [0; 0; 0; 1; 1]%Z None None ∅)) d2' /\
    edge_index d1' = edge_index d2' /\ True.
Proof.
  apply (only_selected_columns_matter (KNN (KNNGraphBuilder.mk 1 [0; 1]%Z None))
           1%positive 1%positive (store_of scenario) _ scenario
           (mkData (mkTensor2 3
              [[0; 0; 7]; [1; 0; 7]; [0; 1; 7]; [5; 5; 7]; [5; 5; 7]]%R)
              [0; 0; 0; 1; 1]%Z None None ∅)).
  - reflexivity.
  - reflexivity.
  - reflexivity.
  - split; [reflexivity|]. split; [reflexivity|].
    intros i c j Hc Hw. simpl in Hc.
    apply elem_of_cons in Hc as [->|Hc]; [|apply elem_of_cons in Hc as [->|Hc]].
    + injection Hw as <-.
      destruct i as [|[|[|[|[|i]]]]]; simpl; try reflexivity; by destruct i.
    + injection Hw as <-.
      destruct i as [|[|[|[|[|i]]]]]; simpl; try reflexivity; by destruct i.
    + by apply elem_of_nil in Hc.
  - concrete_columns.
Defined.

(** * [convert_data] *)

Section ConvertData.
Import icemix.

Lemma chunks_concat rows sizes :
  sum_list sizes = length rows -> concat (chunks rows sizes) = rows.
Proof.
  revert rows. induction sizes as [|n sizes IH]; intros rows Hsum; simpl in *.
  - symmetry. by apply nil_length_inv.
  - rewrite IH; [apply take_drop|]. rewrite length_drop. lia.
Qed.

Lemma chunks_lengths rows sizes :
  (sum_list sizes <= length rows)%nat -> map length (chunks rows sizes) = sizes.
Proof.
  revert rows. induction sizes as [|n sizes IH]; intros rows Hsum; simpl in *;
    [done|].
  rewrite length_take, IH; [f_equal; lia|]. rewrite length_drop. lia.
Qed.

Lemma chunks_rows_of rows sizes sq :
  sq ∈ chunks rows sizes -> forall r, r ∈ sq -> r ∈ rows.
Proof.
  revert rows. induction sizes as [|n sizes IH]; intros rows Hsq r Hr; simpl in *.
  - by apply elem_of_nil in Hsq.
  - apply elem_of_cons in Hsq as [->|Hsq].
    + by eapply (subseteq_take n).
    + eapply (subseteq_drop n). by eapply IH.
Qed.

Lemma convert_data_unfold x n_pulses :
  sum_list n_pulses = length (frows x) ->
  n_pulses <> [] ->
  (2 <= width x)%nat ->
  convert_data x n_pulses =
  inr (map (converted_seq (width x) (Lmax n_pulses)) (chunks (frows x) n_pulses),
       map (mask_of_seq (Lmax n_pulses)) (chunks (frows x) n_pulses)).
Proof.
  intros Hsum Hne Hw. unfold convert_data, split.
  rewrite decide_True by done.
  assert (map length (chunks (frows x) n_pulses) = n_pulses) as Hlens
    by (apply chunks_lengths; lia).
  unfold pad_sequence. rewrite Hlens. fold (Lmax n_pulses).
  destruct (chunks (frows x) n_pulses) as [|sq0 sqs] eqn:Hch.
  { destruct n_pulses; [done|discriminate Hlens]. }
  rewrite <- Hch. clear Hch Hlens sq0 sqs.
  unfold ne_inf_feature_1. rewrite decide_True by done.
  unfold zero_unmasked.
  set (padded := map _ (chunks (frows x) n_pulses)).
  assert (forall sq : list (list float),
            zip_with (fun row (m : bool) => if m then row else map (fun _ => Fin 0) row)
              sq (map (fun row => ne_inf (nth 1 row (Fin 0))) sq) =
            map (fun row => if ne_inf (nth 1 row (Fin 0)) then row
                            else map (fun _ => Fin 0) row) sq) as Hrow.
  { intros sq. induction sq as [|r sq IH]; simpl; [done|]. by rewrite IH. }
  assert (nth 1 (replicate (width x) PInf) (Fin 0) = PInf) as Hpad.
  { destruct (width x) as [|[|w]]; [lia|lia|done]. }
  f_equal. f_equal.
  - subst padded. rewrite !map_map.
    induction (chunks (frows x) n_pulses) as [|sq sqs IH]; simpl; [done|].
    rewrite IH. f_equal. rewrite Hrow. unfold converted_seq.
    rewrite map_app. f_equal.
    change (map ?f (replicate ?n ?v)) with (f <$> replicate n v).
    rewrite fmap_replicate, Hpad. simpl.
    change (map ?f (replicate ?n ?v)) with (f <$> replicate n v).
    by rewrite fmap_replicate.
  - subst padded. rewrite map_map. apply map_ext. intros sq.
    unfold mask_of_seq. rewrite map_app. f_equal.
    change (map ?f (replicate ?n ?v)) with (f <$> replicate n v).
    by rewrite fmap_replicate, Hpad.
Qed.
End ConvertData.

Section ConvertDataProperties.
Import icemix.

Lemma chunks_nil_iff (rows : list (list float)) sizes :
  chunks rows sizes = [] <-> sizes = [].
Proof. destruct sizes; simpl; split; congruence. Qed.

Lemma convert_data_inr x n_pulses r :
  convert_data x n_pulses = inr r ->
  sum_list n_pulses = length (frows x) /\ n_pulses <> [] /\ (2 <= width x)%nat.
Proof.
  unfold convert_data, split, pad_sequence, ne_inf_feature_1.
  destruct (decide (sum_list n_pulses = length (frows x))) as [Hsum|]; [|done].
  destruct (chunks (frows x) n_pulses) eqn:E; [done|].
  destruct (decide (2 <= width x)%nat) as [Hw|]; [|done].
  intros _. split; [done|]. split; [|done].
  intros ->. discriminate E.
Qed.

(** X12. [convert_data] fails in [torch.split] exactly when the pulse
    counts do not add up to the number of rows of [x]; otherwise in
    [pad_sequence] exactly when there is no event at all; otherwise with
    [IndexError] exactly when [x] has fewer than two features; otherwise it
    returns. *)
Theorem convert_data_errors (x : FTensor) (n_pulses : list nat) :
  (convert_data x n_pulses = inl SplitError <->
     sum_list n_pulses <> length (frows x)) /\
  (convert_data x n_pulses = inl PadError <->
     sum_list n_pulses = length (frows x) /\ n_pulses = []) /\
  (convert_data x n_pulses = inl IndexError <->
     sum_list n_pulses = length (frows x) /\ n_pulses <> [] /\
     (width x < 2)%nat) /\
  ((exists r, convert_data x n_pulses = inr r) <->
     sum_list n_pulses = length (frows x) /\ n_pulses <> [] /\
     (2 <= width x)%nat).
Proof.
  destruct (decide (sum_list n_pulses = length (frows x))) as [Hsum|Hsum].
  2:{ assert (convert_data x n_pulses = inl SplitError) as ->
        by (unfold convert_data, split; by rewrite decide_False).
      split; [|split; [|split]]; split; intros H;
        try discriminate H;
        try (lazymatch type of H with ex _ => destruct H as [r Hr]; discriminate Hr end);
        intuition (try lia; try congruence). }
  destruct (decide (n_pulses = [])) as [->|Hne].
  { assert (convert_data x [] = inl PadError) as ->
      by (unfold convert_data, split; by rewrite decide_True).
    split; [|split; [|split]]; split; intros H;
      try discriminate H;
      try (lazymatch type of H with ex _ => destruct H as [r Hr]; discriminate Hr end);
      intuition (try lia; try congruence). }
  destruct (decide (2 <= width x)%nat) as [Hw|Hw].
  - rewrite convert_data_unfold by done.
    split; [|split; [|split]]; split; intros H;
      try discriminate H; intuition (try lia; try congruence; eauto).
  - assert (convert_data x n_pulses = inl IndexError) as ->.
    { unfold convert_data, split. rewrite decide_True by done.
      unfold pad_sequence.
      destruct (chunks (frows x) n_pulses) eqn:E;
        [by apply chunks_nil_iff in E|].
      unfold ne_inf_feature_1. by rewrite decide_False. }
    split; [|split; [|split]]; split; intros H;
      try discriminate H;
      try (lazymatch type of H with ex _ => destruct H as [r Hr]; discriminate Hr end);
      intuition (try lia; try congruence).
Qed.

Lemma seq_feature_1_finite x n_pulses sq :
  feature_1_finite x -> sq ∈ chunks (frows x) n_pulses ->
  map (fun row => if ne_inf (nth 1 row (Fin 0)) then row
                  else map (fun _ => Fin 0) row) sq = sq /\
  map (fun row => ne_inf (nth 1 row (Fin 0))) sq = replicate (length sq) true.
Proof.
  intros Hfin Hsq.
  assert (forall r, r ∈ sq -> ne_inf (nth 1 r (Fin 0)) = true) as Hr.
  { intros r Hr. unfold feature_1_finite in Hfin. rewrite Forall_forall in Hfin.
    specialize (Hfin r (chunks_rows_of _ _ _ Hsq r Hr)).
    by destruct (nth 1 r (Fin 0)). }
  clear Hsq. induction sq as [|r sq IH]; simpl; [done|].
  rewrite (Hr r) by left.
  destruct IH as [-> ->]; [intros; apply Hr; by right|done].
Qed.

Lemma mask_closed_form (x : FTensor) (n_pulses : list nat)
    (X : list (list (list float))) (M : list (list bool)) :
  convert_data x n_pulses = inr (X, M) ->
  feature_1_finite x ->
  M = map (fun n => replicate n true ++ replicate (Lmax n_pulses - n) false)
          n_pulses.
Proof.
  intros Hc Hfin. destruct (convert_data_inr _ _ _ Hc) as (Hsum & Hne & Hw).
  rewrite convert_data_unfold in Hc by done. injection Hc as _ <-.
  rewrite <- (chunks_lengths (frows x) n_pulses) at 3 by lia.
  rewrite map_map. apply map_ext_in. intros sq Hsq%list_elem_of_In.
  unfold mask_of_seq.
  by destruct (seq_feature_1_finite x n_pulses sq Hfin Hsq) as [_ ->].
Qed.

(** X13. When the feature 1 of no pulse is [+inf], the mask depends on
    the pulse counts alone: row [b] is [n_pulses[b]] times true followed by
    false up to the largest count, so [mask.sum(-1)] gives back
    [n_pulses]. *)
Theorem convert_data_mask (x : FTensor) (n_pulses : list nat)
    (X : list (list (list float))) (M : list (list bool)) :
  convert_data x n_pulses = inr (X, M) ->
  feature_1_finite x ->
  M = map (fun n => replicate n true ++ replicate (Lmax n_pulses - n) false)
          n_pulses /\
  count_true M = n_pulses.
Proof.
  intros Hc Hfin. pose proof (mask_closed_form _ _ _ _ Hc Hfin) as ->.
  split; [done|]. unfold count_true. rewrite map_map.
  rewrite <- (map_id n_pulses) at 2. apply map_ext. intros n.
  rewrite filter_app, length_app.
  rewrite (filter_all (fun m => m = true)), length_replicate
    by (apply Forall_forall; by intros m [-> _]%elem_of_replicate).
  rewrite (filter_none (fun m => m = true))
    by (apply Forall_forall; by intros m [-> _]%elem_of_replicate).
  simpl. lia.
Qed.

Lemma convert_data_mask_witness :
  exists X M,
    convert_data pulses [3; 1]%nat = inr (X, M) /\
    M = map (fun n => replicate n true ++ replicate (Lmax [3; 1]%nat - n) false)
            [3; 1]%nat /\
    count_true M = [3; 1]%nat.
Proof.
  eexists _, _. split; [reflexivity|].
  eapply (convert_data_mask pulses [3; 1]%nat).
  - reflexivity.
  - unfold feature_1_finite. simpl. repeat constructor; discriminate.
Defined.

Lemma Forall2_chunks (rows : list (list float)) sizes :
  (sum_list sizes <= length rows)%nat ->
  Forall2 (fun sq n => length sq = n) (chunks rows sizes) sizes.
Proof.
  revert rows. induction sizes as [|n sizes IH]; intros rows Hsum; simpl in *;
    constructor.
  - rewrite length_take. lia.
  - apply IH. rewrite length_drop. lia.
Qed.

Lemma padded_sequences (w L : nat) (sqs : list (list (list float)))
    (ns : list nat) :
  Forall2 (fun sq n => length sq = n) sqs ns ->
  Forall (Forall (fun row => length row = w)) sqs ->
  (forall n, n ∈ ns -> (n <= L)%nat) ->
  let X := map (fun sq => sq ++ replicate (L - length sq) (replicate w (Fin 0)))
               sqs in
  length X = length ns /\
  Forall (fun sq => length sq = L) X /\
  Forall (Forall (fun row => length row = w)) X /\
  concat (zip_with take ns X) = concat sqs /\
  zip_with drop ns X = map (fun n => replicate (L - n) (replicate w (Fin 0))) ns.
Proof.
  induction 1 as [|sq n sqs ns Hlen H2 IH]; intros Hrows Hmax.
  - simpl. repeat split; constructor.
  - apply Forall_cons in Hrows as [Hsq Hrows].
    destruct (IH Hrows) as (H1 & H3 & H4 & H5 & H6).
    { intros m Hm. apply Hmax. by right. }
    assert (n <= L)%nat as HnL by (apply Hmax; left).
    simpl in *. rewrite H1. split; [done|]. split.
    { constructor; [|done]. rewrite length_app, length_replicate. lia. }
    split.
    { constructor; [|done]. apply Forall_app. split; [done|].
      apply Forall_forall. intros r [-> _]%elem_of_replicate.
      apply length_replicate. }
    split.
    + rewrite H5. f_equal. subst n. by rewrite take_app_length.
    + rewrite H6. f_equal. subst n. by rewrite drop_app_length.
Qed.

(** X14. When the feature 1 of no pulse is [+inf], the pulses come back
    unchanged: event [b] of the result is the [n_pulses[b]] rows of that
    event followed by zero rows up to the largest count; cutting every
    event back to its count and concatenating gives the rows of [x]. *)
Theorem convert_data_round_trip (x : FTensor) (n_pulses : list nat)
    (X : list (list (list float))) (M : list (list bool)) :
  convert_data x n_pulses = inr (X, M) ->
  wf_ftensor x ->
  feature_1_finite x ->
  length X = length n_pulses /\
  Forall (fun sq => length sq = Lmax n_pulses) X /\
  Forall (Forall (fun row => length row = width x)) X /\
  concat (zip_with take n_pulses X) = frows x /\
  zip_with drop n_pulses X =
    map (fun n => replicate (Lmax n_pulses - n) (replicate (width x) (Fin 0)))
        n_pulses.
Proof.
  intros Hc Hwf Hfin. destruct (convert_data_inr _ _ _ Hc) as (Hsum & Hne & Hw).
  rewrite convert_data_unfold in Hc by done. injection Hc as <- _.
  assert (map (converted_seq (width x) (Lmax n_pulses)) (chunks (frows x) n_pulses) =
          map (fun sq => sq ++ replicate (Lmax n_pulses - length sq)
                                  (replicate (width x) (Fin 0)))
              (chunks (frows x) n_pulses)) as ->.
  { apply map_ext_in. intros sq Hsq%list_elem_of_In. unfold converted_seq.
    by destruct (seq_feature_1_finite x n_pulses sq Hfin Hsq) as [-> _]. }
  pose proof (padded_sequences (width x) (Lmax n_pulses)
                (chunks (frows x) n_pulses) n_pulses) as Hpad.
  simpl in Hpad. rewrite (chunks_concat (frows x) n_pulses Hsum) in Hpad.
  apply Hpad.
  - apply Forall2_chunks. lia.
  - apply Forall_forall. intros sq Hsq. apply Forall_forall. intros r Hr.
    unfold wf_ftensor in Hwf. rewrite Forall_forall in Hwf.
    apply Hwf. by eapply chunks_rows_of.
  - intros n Hn. unfold Lmax. by apply max_list_elem_of_le.
Qed.

Lemma convert_data_round_trip_witness :
  exists X M,
    convert_data pulses [3; 1]%nat = inr (X, M) /\
    length X = length [3; 1]%nat /\
    Forall (fun sq => length sq = Lmax [3; 1]%nat) X /\
    Forall (Forall (fun row => length row = width pulses)) X /\
    concat (zip_with take [3; 1]%nat X) = frows pulses /\
    zip_with drop [3; 1]%nat X =
      map (fun n => replicate (Lmax [3; 1]%nat - n) (replicate (width pulses) (Fin 0)))
          [3; 1]%nat.
Proof.
  eexists _, _. split; [reflexivity|].
  eapply (convert_data_round_trip pulses [3; 1]%nat).
  - reflexivity.
  - unfold wf_ftensor. simpl. repeat constructor.
  - unfold feature_1_finite. simpl. repeat constructor; discriminate.
Defined.

(** X15. A pulse whose feature 1 is [+inf] is taken for padding: its
    position in the mask is false and its row comes back as zeros. *)
Theorem convert_data_inf_pulse_is_dropped (x : FTensor) (n_pulses : list nat)
    (X : list (list (list float))) (M : list (list bool))
    (b l : nat) (sq : list (list float)) (row : list float) :
  convert_data x n_pulses = inr (X, M) ->
  chunks (frows x) n_pulses !! b = Some sq ->
  sq !! l = Some row ->
  nth 1 row (Fin 0) = PInf ->
  mlookup M b l = Some false /\
  mlookup X b l = Some (map (fun _ => Fin 0) row).
Proof.
  intros Hc Hb Hl Hinf. destruct (convert_data_inr _ _ _ Hc) as (Hsum & Hne & Hw).
  rewrite convert_data_unfold in Hc by done. injection Hc as <- <-.
  unfold mlookup. rewrite !lookup_map, Hb. simpl.
  unfold mask_of_seq, converted_seq.
  rewrite !lookup_app_l by (rewrite length_map; by eapply lookup_lt_Some).
  by rewrite !lookup_map, Hl; simpl; rewrite Hinf.
Qed.

Lemma convert_data_inf_pulse_is_dropped_witness :
  exists X M,
    convert_data (mkFTensor 2 [[Fin 1; Fin 10]; [Fin 2; PInf]]) [2]%nat = inr (X, M) /\
    mlookup M 0 1 = Some false /\
    mlookup X 0 1 = Some (map (fun _ => Fin 0) [Fin 2; PInf]).
Proof.
  eexists _, _. split; [reflexivity|].
  eapply (convert_data_inf_pulse_is_dropped
            (mkFTensor 2 [[Fin 1; Fin 10]; [Fin 2; PInf]]) [2]%nat _ _ 0 1
            [[Fin 1; Fin 10]; [Fin 2; PInf]] [Fin 2; PInf]);
    reflexivity.
Defined.
End ConvertDataProperties.

(** * [DeepIce]: what the model code computes besides its layers *)

Section DeepIceProperties.
Import icemix.

Lemma comprehension_ext {A B} (f g : A -> error + B) (l : list A) :
  (forall a, a ∈ l -> f a = g a) -> comprehension f l = comprehension g l.
Proof.
  induction l as [|a l IH]; intros Hfg; simpl; [done|].
  rewrite (Hfg a) by left. rewrite IH; [done|]. intros; apply Hfg. by right.
Qed.

Lemma length_comprehension {A B} (f : A -> error + B) (l : list A) bs :
  comprehension f l = inr bs -> length bs = length l.
Proof.
  revert bs. induction l as [|a l IH]; intros bs; simpl.
  - by intros [= <-].
  - destruct (f a); [done|]. destruct (comprehension f l); [done|].
    intros [= <-]. simpl. f_equal. by apply IH.
Qed.

(** X16. With [depth = 1] the list of blocks cannot be built: the
    arguments of the first [Block] divide by [depth - 1 = 0] (or by
    [head_size = 0] before that), and [ZeroDivisionError] is raised before
    any [Block] is constructed. *)
Theorem make_blocks_depth_1 {B} (Block : BlockArgs -> error + B)
    (dim head_size : Z) :
  make_blocks Block dim head_size 1 = inl ZeroDivisionError.
Proof.
  unfold make_blocks, range. simpl. unfold make_block, floordiv.
  case_decide; [done|]. done.
Qed.

(** X17. With [depth >= 2] and [head_size <> 0] every [Block] is
    constructed with the same arguments, and its [drop_path] is 0 whatever
    its index: the list is [depth] calls of the constructor on
    [(dim, dim // head_size, 4, 0, 1)]. *)
Theorem make_blocks_drop_path_0 {B} (Block : BlockArgs -> error + B)
    (dim head_size depth : Z) :
  (2 <= depth)%Z ->
  head_size <> 0%Z ->
  make_blocks Block dim head_size depth =
    comprehension (fun _ => Block (mkBlockArgs dim (dim / head_size) 4 0 1))
                  (range depth) /\
  forall bs, make_blocks Block dim head_size depth = inr bs ->
    Z.of_nat (length bs) = depth.
Proof.
  intros Hdepth Hhead.
  assert (make_blocks Block dim head_size depth =
          comprehension (fun _ => Block (mkBlockArgs dim (dim / head_size) 4 0 1))
                        (range depth)) as Heq.
  { unfold make_blocks. apply comprehension_ext. intros i _.
    unfold make_block, floordiv, truediv. rewrite !decide_False by lia.
    by rewrite Rmult_0_l. }
  split; [done|]. intros bs Hbs. apply length_comprehension in Hbs.
  rewrite Hbs. unfold range. rewrite length_seqZ. lia.
Qed.

Lemma make_blocks_drop_path_0_witness :
  make_blocks (fun a : BlockArgs => inr a) 384 32 12 =
    comprehension (fun _ => inr (mkBlockArgs 384 (384 / 32) 4 0 1)) (range 12) /\
  forall bs, make_blocks (fun a : BlockArgs => inr a) 384 32 12 = inr bs ->
    Z.of_nat (length bs) = 12%Z.
Proof.
  apply (make_blocks_drop_path_0 (fun a : BlockArgs => inr a) 384 32 12); lia.
Defined.

(** X18. The attention masks of [DeepIce.forward], when the feature 1 of
    no pulse is [+inf]: in the first stage event [b] has 0 at its
    [n_pulses[b]] pulses and [-inf] at the padding; in the second stage one
    more 0 comes first, so the position of the class token is never masked. *)
Theorem attention_masks (x : FTensor) (n_pulses : list nat)
    (X : list (list (list float))) (M : list (list bool)) :
  convert_data x n_pulses = inr (X, M) ->
  feature_1_finite x ->
  attn_mask_of M =
    map (fun n => replicate n (Fin 0) ++ replicate (Lmax n_pulses - n) NInf)
        n_pulses /\
  attn_mask_of (with_cls_position M) =
    map (fun n => replicate (S n) (Fin 0) ++ replicate (Lmax n_pulses - n) NInf)
        n_pulses.
Proof.
  intros Hc Hfin. pose proof (mask_closed_form _ _ _ _ Hc Hfin) as ->.
  unfold attn_mask_of, with_cls_position. rewrite !map_map.
  split; apply map_ext; intros n; cbn [map]; rewrite map_app;
    change (map ?f (replicate ?k ?v)) with (f <$> replicate k v);
    by rewrite !fmap_replicate.
Qed.

Lemma attention_masks_witness :
  exists X M,
    convert_data pulses [3; 1]%nat = inr (X, M) /\
    attn_mask_of M =
      map (fun n => replicate n (Fin 0) ++ replicate (Lmax [3; 1]%nat - n) NInf)
          [3; 1]%nat /\
    attn_mask_of (with_cls_position M) =
      map (fun n => replicate (S n) (Fin 0) ++ replicate (Lmax [3; 1]%nat - n) NInf)
          [3; 1]%nat.
Proof.
  eexists _, _. split; [reflexivity|].
  eapply (attention_masks pulses [3; 1]%nat).
  - reflexivity.
  - unfold feature_1_finite. simpl. repeat constructor; discriminate.
Defined.

Lemma sandwich_loop_scheduled {T Bias}
    (blocks : list (T -> list (list float) -> option Bias -> error + T))
    (n_rel : Z) attn (bias : Bias) (i : Z) (x : T) :
  (0 <= i)%Z ->
  sandwich_loop blocks n_rel attn i x
    (if decide (1 <= n_rel <= i)%Z then None else Some bias) =
  apply_scheduled blocks
    (fun k => if decide (1 <= n_rel <= k)%Z then None else Some bias) attn i x.
Proof.
  revert i x. induction blocks as [|blk blocks IH]; intros i x Hi; simpl; [done|].
  destruct (blk x attn _) as [e|x']; [done|].
  rewrite <- IH by lia. f_equal.
  repeat case_decide; try done; lia.
Qed.

(** X19. In the loop over [self.sandwich] the relative-position bias goes
    to the blocks with index below [n_rel] and [None] to the later ones;
    when [n_rel < 1] the test [i + 1 == n_rel] never succeeds and every
    block receives the bias. *)
Theorem sandwich_bias_schedule {T Bias}
    (blocks : list (T -> list (list float) -> option Bias -> error + T))
    (n_rel : Z) (attn_mask : list (list float)) (bias : Bias) (x : T) :
  sandwich_loop blocks n_rel attn_mask 0 x (Some bias) =
  apply_scheduled blocks
    (fun i => if decide (1 <= n_rel <= i)%Z then None else Some bias)
    attn_mask 0 x.
Proof.
  rewrite <- sandwich_loop_scheduled by lia.
  f_equal. rewrite decide_False; [done|lia].
Qed.
End DeepIceProperties.

Section DynEdgeProperties.
Import icemix.

Lemma true_indices_prefix (k r : nat) :
  true_indices (replicate k true ++ replicate r false) = seq 0 k.
Proof.
  unfold true_indices. rewrite length_app, !length_replicate, seq_app, filter_app.
  rewrite filter_all, filter_none; [by rewrite app_nil_r| |].
  - apply Forall_forall. intros j Hj%elem_of_seq.
    rewrite nth_lookup, lookup_app_r by (rewrite length_replicate; lia).
    rewrite length_replicate.
    destruct (replicate r false !! (j - k)%nat) as [m|] eqn:E; simpl; [|done].
    apply lookup_replicate in E as [-> _]. done.
  - apply Forall_forall. intros j Hj%elem_of_seq.
    rewrite nth_lookup, lookup_app_l by (rewrite length_replicate; lia).
    by rewrite lookup_replicate_2 by lia.
Qed.

(** X20. In [DeepIceWithDynEdge.forward], when the feature 1 of no pulse
    is [+inf]: the largest row sum of the mask is the largest pulse count,
    cutting the mask to that many columns changes nothing, and the batch
    index handed to [knn_graph] lists event [b] exactly [n_pulses[b]]
    times, events in increasing order. *)
Theorem dynedge_batch_index (x : FTensor) (n_pulses : list nat)
    (X : list (list (list float))) (M : list (list bool)) :
  convert_data x n_pulses = inr (X, M) ->
  feature_1_finite x ->
  max_list (count_true M) = Lmax n_pulses /\
  map (take (Lmax n_pulses)) M = M /\
  batch_index M =
    flat_map (fun b => replicate (nth b n_pulses 0%nat) b)
             (seq 0 (length n_pulses)).
Proof.
  intros Hc Hfin.
  assert (count_true M = n_pulses) as Hcount.
  { pose proof (mask_closed_form _ _ _ _ Hc Hfin) as ->.
    unfold count_true. rewrite map_map.
    rewrite <- (map_id n_pulses) at 2. apply map_ext. intros n.
    rewrite filter_app, length_app.
    rewrite (filter_all (fun m => m = true)), length_replicate
      by (apply Forall_forall; by intros m [-> _]%elem_of_replicate).
    rewrite (filter_none (fun m => m = true))
      by (apply Forall_forall; by intros m [-> _]%elem_of_replicate).
    simpl. lia. }
  split; [by rewrite Hcount|].
  pose proof (mask_closed_form _ _ _ _ Hc Hfin) as ->.
  assert (forall n, n ∈ n_pulses -> (n <= Lmax n_pulses)%nat) as Hmax.
  { intros n Hn. unfold Lmax. by apply max_list_elem_of_le. }
  split.
  - rewrite map_map. apply map_ext_in. intros n Hn%list_elem_of_In.
    apply take_ge. rewrite length_app, !length_replicate.
    specialize (Hmax n Hn). lia.
  - unfold batch_index, where_. rewrite length_map.
    generalize (Lmax n_pulses) as L. intros L.
    rewrite flat_map_concat_map, concat_map, map_map, <- flat_map_concat_map.
    apply flat_map_ext. intros b. rewrite map_map. simpl.
    destruct (n_pulses !! b) as [n|] eqn:E.
    + rewrite (nth_lookup_Some _ _ _ _ E).
      erewrite (nth_lookup_Some (map _ n_pulses) b []);
        [|rewrite lookup_map, E; reflexivity].
      rewrite true_indices_prefix.
      change (map ?f ?l) with (f <$> l).
      rewrite const_fmap with (y := b) by done. by rewrite length_seq.
    + rewrite !nth_overflow; [done|..];
        rewrite ?length_map; by apply lookup_ge_None.
Qed.

Lemma dynedge_batch_index_witness :
  exists X M,
    convert_data pulses [3; 1]%nat = inr (X, M) /\
    max_list (count_true M) = Lmax [3; 1]%nat /\
    map (take (Lmax [3; 1]%nat)) M = M /\
    batch_index M =
      flat_map (fun b => replicate (nth b [3; 1]%nat 0%nat) b)
               (seq 0 (length [3; 1]%nat)).
Proof.
  eexists _, _. split; [reflexivity|].
  eapply (dynedge_batch_index pulses [3; 1]%nat).
  - reflexivity.
  - unfold feature_1_finite. simpl. repeat constructor; discriminate.
Defined.
End DynEdgeProperties.
